(** * mini-framework: the store, the router, the renderer and the application

    A shallow embedding of [framework/state.js], [framework/route.js],
    [framework/dom.js] and [framework/app.js] (the last two are the tail of
    [TodoMVC/ToDoApp.js] in the source tree) and of the operations of the
    TodoMVC application on its list of todos, with the properties of the
    framework's specification stated and settled against it, followed by
    further properties of the code. *)

From Stdlib Require Import ZArith Ascii String List Lia DecimalNat DecimalString.
From stdpp Require Import base option list gmap strings fin_maps.

Set Warnings "-register-all".

Local Open Scope string_scope.
Local Open Scope list_scope.

(** ** JavaScript values

    The values the framework's consumers hand to it: primitives, functions,
    references to live document nodes, arrays and plain objects.  Numbers
    are the integers.  A function is known by its identity only: its body
    is the consumer's code, and the model records every call the framework
    makes to one (see [event]) without running it.  A plain object is the
    list of its own enumerable properties in the order they were written;
    when a key occurs twice the first occurrence is the property and the
    others are not part of the object.  (JavaScript lists keys that are
    array indices before the others; the model keeps them where they were
    written.) *)

Definition fn := nat.
Definition node := nat.

Inductive value : Type :=
  | VUndefined
  | VNull
  | VBool (b : bool)
  | VNum (n : Z)
  | VStr (s : string)
  | VFun (f : fn)
  | VNode (n : node)
  | VArr (elems : list value)
  | VObj (props : list (string * value)).

(** [typeof v]. *)
Definition typeof (v : value) : string :=
  match v with
  | VUndefined => "undefined"
  | VNull => "object"
  | VBool _ => "boolean"
  | VNum _ => "number"
  | VStr _ => "string"
  | VFun _ => "function"
  | VNode _ | VArr _ | VObj _ => "object"
  end.

(** ToBoolean, the test of [if (v)], [!v] and [a && b]. *)
Definition truthy (v : value) : bool :=
  match v with
  | VUndefined | VNull => false
  | VBool b => b
  | VNum n => negb (n =? 0)%Z
  | VStr s => negb (String.eqb s "")
  | VFun _ | VNode _ | VArr _ | VObj _ => true
  end.

Definition is_null (v : value) : bool :=
  match v with VNull => true | _ => false end.

Definition is_undefined (v : value) : bool :=
  match v with VUndefined => true | _ => false end.

(** [Array.isArray(v)]. *)
Definition isArray (v : value) : bool :=
  match v with VArr _ => true | _ => false end.

(** [v instanceof Object]: every object, array, function and node. *)
Definition instanceof_Object (v : value) : bool :=
  match v with
  | VFun _ | VNode _ | VArr _ | VObj _ => true
  | _ => false
  end.

(** Decimal numerals, the keys of an array's elements. *)
Definition decimal (n : nat) : string :=
  NilEmpty.string_of_uint (Nat.to_uint n).

(** The entries of an array from index [i] on: [(i, x_i), (i+1, x_i+1), ...]. *)
Fixpoint index_entries (i : nat) (elems : list value) : list (string * value) :=
  match elems with
  | [] => []
  | x :: rest => (decimal i, x) :: index_entries (S i) rest
  end.

(** The properties of an object, each key once. *)
Fixpoint first_bindings (seen : list string) (props : list (string * value))
  : list (string * value) :=
  match props with
  | [] => []
  | (k, v) :: rest =>
      if bool_decide (k ∈ seen) then first_bindings seen rest
      else (k, v) :: first_bindings (k :: seen) rest
  end.

(** [Object.entries(v)] for an object [v]: its own enumerable string-keyed
    properties.  An array has its elements under their indices ([length] is
    not enumerable); a live node has none (what it offers are accessors of
    its prototype). *)
Definition entries (v : value) : list (string * value) :=
  match v with
  | VObj props => first_bindings [] props
  | VArr elems => index_entries 0 elems
  | _ => []
  end.

(** The same properties as a finite map (the first occurrence of a key
    wins, as in [get_prop]). *)
Definition own_props (v : value) : gmap string value :=
  list_to_map (entries v).

(** The property read [v.k] on a value that is neither [null] nor
    [undefined].  Only own enumerable properties are looked up: the source
    reads the keys [tag], [attributes], [innerText], [children] and [id],
    which the prototypes of objects, arrays, functions and primitives do
    not define.  A live node does have [id], [innerText], [attributes] and
    [children]; they are read as [undefined] here.  For a node passed where
    a virtual element is expected the outcome is the same (it has no [tag],
    its [attributes] are no plain object, its [children] no array), but the
    document would use its [id] as key of the forward table and copy its
    text. *)
Definition get_prop (v : value) (k : string) : value :=
  match own_props v !! k with
  | Some x => x
  | None => VUndefined
  end.

(** A default parameter value [p = d]: used when the argument is
    [undefined]. *)
Definition default_arg (arg d : value) : value :=
  match arg with VUndefined => d | _ => arg end.

(** ** JavaScript strings

    Strings are sequences of one-byte characters; [toLowerCase] folds the
    letters A to Z only. *)

(** [s.startsWith(p)]. *)
Definition startsWith (s p : string) : bool := String.prefix p s.

(** [s.substring(n)]: what is left after the first [n] characters. *)
Definition substring_from (n : nat) (s : string) : string :=
  String.substring n (String.length s - n) s.

Definition lower_ascii (c : ascii) : ascii :=
  let n := nat_of_ascii c in
  if Nat.leb 65 n && Nat.leb n 90 then ascii_of_nat (n + 32) else c.

Fixpoint toLowerCase (s : string) : string :=
  match s with
  | EmptyString => EmptyString
  | String c rest => String (lower_ascii c) (toLowerCase rest)
  end.

(** ** What the framework does to the outside

    Calls of consumer functions, console output and history writes, in the
    order they happen. *)
Inductive event : Type :=
  | Invoke (f : fn) (args : list value)
  | ConsoleLog (args : list value)
  | PushState (url : string).

(** ** framework/state.js: the class [State] *)

Record State : Type := mkState {
  state : gmap string value;
  listeners : list fn;
  updateCallback : option fn
}.

(** The loop of the constructor: functions are pushed in order; the first
    entry that is not a function leaves the constructor ([return false],
    which [new] ignores), keeping what was pushed before it. *)
Fixpoint push_listeners (given : list value) (pushed : list fn) : list fn :=
  match given with
  | [] => pushed
  | VFun f :: rest => push_listeners rest (pushed ++ [f])
  | _ :: _ => pushed
  end.

(** [new State(listeners)]. *)
Definition new_State (given : value) : State :=
  {| state := ∅;
     listeners :=
       match given with
       | VArr elems => if Nat.ltb 0 (length elems) then push_listeners elems [] else []
       | _ => []
       end;
     updateCallback := None |}.

Definition setUpdateCallback (callback : fn) (s : State) : State :=
  {| state := state s; listeners := listeners s;
     updateCallback := Some callback |}.

Definition getState (s : State) : gmap string value := state s.

(** [update()]: every listener is called, in registration order, with no
    argument. *)
Definition update (s : State) : list event :=
  (λ listener, Invoke listener []) <$> listeners s.

(** The spread [{ ...target, ...source }]: the keys of [source] win. *)
Definition spread (target : gmap string value) (source : value)
  : gmap string value :=
  own_props source ∪ target.

(** [setState(newVal, triggerUpdate = true)]: the store after the call, the
    calls made during it, and the returned boolean. *)
Definition setState (newVal triggerUpdate : value) (s : State)
  : State * list event * bool :=
  if negb (String.eqb (typeof newVal) "object") || is_null newVal then
    (s, [], false)
  else
    let s' := {| state := spread (state s) newVal;
                 listeners := listeners s;
                 updateCallback := updateCallback s |} in
    if truthy (default_arg triggerUpdate (VBool true)) then
      (s',
       update s' ++
       match updateCallback s' with
       | Some callback => [Invoke callback []]
       | None => []
       end,
       true)
    else (s', [], true).

(** ** The program's state

    The module-level objects of the three files and the part of the host
    (document, location, console, history) they act on. *)

(** What a live node holds: text set through [innerText] and child nodes,
    in document order. *)
Inductive content : Type :=
  | Text (v : value)
  | Child (n : node).

(** The other calls made on a live node, kept in the order they were made.
    [SetAttribute name v] stands for [setAttribute(name, v.toString())]. *)
Inductive dom_op : Type :=
  | AddEventListener (type : string) (listener : fn)
  | SetChecked (b : bool)
  | SetAttribute (name : string) (v : value)
  | RemoveAttribute (name : string).

Record Element : Type := mkElement {
  tagName : value;
  childNodes : list content;
  applied : list dom_op
}.

Record World : Type := mkWorld {
  globalStorage : State;                    (* state.js *)
  allRoutes : gmap string fn;               (* state.js, a Map *)
  virtualToDomMap : list (value * node);    (* dom.js, a Map *)
  domToVirtualMap : gmap node value;        (* dom.js, a WeakMap *)
  document : gmap node Element;             (* the live nodes *)
  next_node : node;                         (* the next node to be created *)
  location_hash : string;                   (* window.location.hash *)
  trace : list event                        (* what happened so far *)
}.

Definition set_globalStorage (s : State) (w : World) : World :=
  mkWorld s (allRoutes w) (virtualToDomMap w) (domToVirtualMap w)
    (document w) (next_node w) (location_hash w) (trace w).

Definition set_allRoutes (r : gmap string fn) (w : World) : World :=
  mkWorld (globalStorage w) r (virtualToDomMap w) (domToVirtualMap w)
    (document w) (next_node w) (location_hash w) (trace w).

Definition set_virtualToDomMap (m : list (value * node)) (w : World) : World :=
  mkWorld (globalStorage w) (allRoutes w) m (domToVirtualMap w)
    (document w) (next_node w) (location_hash w) (trace w).

Definition set_domToVirtualMap (m : gmap node value) (w : World) : World :=
  mkWorld (globalStorage w) (allRoutes w) (virtualToDomMap w) m
    (document w) (next_node w) (location_hash w) (trace w).

Definition set_document (d : gmap node Element) (w : World) : World :=
  mkWorld (globalStorage w) (allRoutes w) (virtualToDomMap w)
    (domToVirtualMap w) d (next_node w) (location_hash w) (trace w).

Definition set_next_node (n : node) (w : World) : World :=
  mkWorld (globalStorage w) (allRoutes w) (virtualToDomMap w)
    (domToVirtualMap w) (document w) n (location_hash w) (trace w).

Definition set_location_hash (h : string) (w : World) : World :=
  mkWorld (globalStorage w) (allRoutes w) (virtualToDomMap w)
    (domToVirtualMap w) (document w) (next_node w) h (trace w).

Definition set_trace (t : list event) (w : World) : World :=
  mkWorld (globalStorage w) (allRoutes w) (virtualToDomMap w)
    (domToVirtualMap w) (document w) (next_node w) (location_hash w) t.

(** ** Statements that may throw

    A statement takes the world to a new world and either returns or
    throws; what it did before throwing stays done.  [NoFuel] is the
    outcome of a recursion that was cut short (see
    [elementToHtmlElement_fuel]). *)

Inductive error : Type :=
  | Error (message : string)   (* [throw new Error(message)] *)
  | TypeError                  (* a read on null or undefined, a call of a non-function *)
  | InvalidCharacterError.     (* a name the document refuses *)

Inductive outcome (A : Type) : Type :=
  | Return (a : A)
  | Throw (e : error)
  | NoFuel.

Arguments Return {A} a.
Arguments Throw {A} e.
Arguments NoFuel {A}.

Definition M (A : Type) : Type := World -> World * outcome A.

Definition ret {A} (a : A) : M A := fun w => (w, Return a).

Definition throw {A} (e : error) : M A := fun w => (w, Throw e).

Definition bind {A B} (m : M A) (k : A -> M B) : M B :=
  fun w =>
    match m w with
    | (w', Return a) => k a w'
    | (w', Throw e) => (w', Throw e)
    | (w', NoFuel) => (w', NoFuel)
    end.

Declare Scope js_scope.
Delimit Scope js_scope with js.
Notation "'let*' x ':=' m 'in' k" := (bind m (fun x => k))
  (at level 10, x name, m at level 100, k at level 200) : js_scope.
Notation "m '>>' k" := (bind m (fun _ => k))
  (at level 90, right associativity) : js_scope.
Local Open Scope js_scope.

(** Reading the world. *)
Definition read {A} (f : World -> A) : M A := fun w => (w, Return (f w)).

(** A statement that only changes the world. *)
Definition modify (f : World -> World) : M unit := fun w => (f w, Return tt).

(** A statement seen from outside: appended to the trace. *)
Definition emit (e : event) : M unit :=
  modify (fun w => set_trace (trace w ++ [e]) w).

Definition when (b : bool) (m : M unit) : M unit :=
  if b then m else ret tt.

(** [for (const x of xs) body(x)] and [xs.forEach(body)]. *)
Fixpoint forEach {A} (xs : list A) (body : A -> M unit) : M unit :=
  match xs with
  | [] => ret tt
  | x :: rest => body x >> forEach rest body
  end.

(** A method call on the store of the program, [globalStorage.setState(
    newVal, triggerUpdate)]: the calls the store makes go to the trace. *)
Definition globalStorage_setState (newVal triggerUpdate : value) : M bool :=
  fun w =>
    let '(s', calls, result) :=
      setState newVal triggerUpdate (globalStorage w) in
    (set_trace (trace w ++ calls) (set_globalStorage s' w), Return result).

(** ** framework/route.js *)

(** [addRoute(url, handler)]. *)
Definition addRoute (url handler : value) : M bool :=
  fun w =>
    match url, handler with
    | VStr path, VFun h =>
        match allRoutes w !! path with
        | Some _ => (w, Return false)
        | None => (set_allRoutes (<[path := h]> (allRoutes w)) w, Return true)
        end
    | _, _ => (w, Return false)
    end.

(** [allRoutes.has(path)]. *)
Definition has_route (path : string) (w : World) : bool :=
  bool_decide (is_Some (allRoutes w !! path)).

(** [window.location.hash] once [history.pushState(null, "", url)] has set
    the fragment of the address to [url], a string that starts with the
    fragment marker: the fragment with its marker, or the empty string
    when the fragment is empty. *)
Definition hash_after_push (url : string) : string :=
  if String.eqb url "#" then "" else url.

(** [history.pushState(null, "", url)]. *)
Definition pushState (url : string) : M unit :=
  emit (PushState url) >>
  modify (set_location_hash (hash_after_push url)).

(** [executeRoute(url)]. *)
Definition executeRoute (url : string) : M unit :=
  let cleanUrl := if startsWith url "#" then substring_from 1 url else url in
  let* known := read (has_route cleanUrl) in
  let cleanUrl := if negb known then "/" else cleanUrl in
  let* handler := read (fun w => allRoutes w !! cleanUrl) in
  match handler with
  | Some h => emit (Invoke h [])
  | None =>
      emit (ConsoleLog [VStr "No handler found for route:"; VStr cleanUrl])
  end >>
  let hashUrl :=
    if startsWith cleanUrl "#" then cleanUrl else String.append "#" cleanUrl in
  let* hash := read location_hash in
  when (negb (String.eqb hash hashUrl)) (pushState hashUrl).

(** ** framework/dom.js *)

(** The elements of an array value. *)
Definition elements (v : value) : list value :=
  match v with VArr xs => xs | _ => [] end.

(** The test [createVirtualElement] applies to every member of
    [children]; a member on which it is [true] is refused. *)
Definition not_a_virtual_element (child : value) : bool :=
  negb (String.eqb (typeof child) "object")
  || is_null child
  || negb (String.eqb (typeof (get_prop child "tag")) "string")
  || negb (truthy (get_prop child "attributes")
           && instanceof_Object (get_prop child "attributes"))
  || negb (truthy (get_prop child "children"))
  || negb (isArray (get_prop child "children")).

(** What happens to a refused member: two lines on the console, the second
    of which reads [child.children] and so fails on its own when the child
    is [null] or [undefined], then the error. *)
Definition refuse_child (child : value) : M unit :=
  emit (ConsoleLog [VStr (typeof child); child]) >>
  (if is_null child || is_undefined child then throw TypeError
   else emit (ConsoleLog [VStr (typeof (get_prop child "children"));
                          get_prop child "children"])) >>
  throw (Error "Error: each child must be a virtual element with tag, attributes, and children:").

(** The object literal [createVirtualElement] returns. *)
Definition virtual_element (tag attributes innerText children : value) : value :=
  VObj [("tag", tag); ("attributes", attributes);
        ("innerText", innerText); ("children", children)].

(** [createVirtualElement(tag, attributes, innerText, children)]. *)
Definition createVirtualElement (tag attributes innerText children : value)
  : M value :=
  if negb (truthy tag) || negb (String.eqb (typeof tag) "string") then
    throw (Error "Error: tag is not a string")
  else if negb (truthy attributes)
          || negb (String.eqb (typeof attributes) "object")
          || is_null attributes then
    throw (Error "Error: attributes are not an object")
  else if truthy innerText && negb (String.eqb (typeof innerText) "string") then
    throw (Error "Error: innerText is not a string")
  else if negb (truthy children) || negb (isArray children) then
    throw (Error "Error: children is not an array")
  else
    forEach (elements children) (fun child =>
      if not_a_virtual_element child then refuse_child child else ret tt) >>
    ret (virtual_element tag attributes innerText children).

(** Keys of a [Map] are compared by SameValueZero.  Primitives compare by
    value, functions and nodes by identity.  The model has no identity for
    arrays and objects: two of them as keys are taken to be different
    objects. *)
Definition same_key (a b : value) : bool :=
  match a, b with
  | VUndefined, VUndefined => true
  | VNull, VNull => true
  | VBool x, VBool y => Bool.eqb x y
  | VNum x, VNum y => (x =? y)%Z
  | VStr x, VStr y => String.eqb x y
  | VFun x, VFun y => Nat.eqb x y
  | VNode x, VNode y => Nat.eqb x y
  | _, _ => false
  end.

(** [map.set(key, n)] on a [Map]: an entry with the same key is rewritten
    in place, a new key is added at the end. *)
Fixpoint Map_set (key : value) (n : node) (m : list (value * node))
  : list (value * node) :=
  match m with
  | [] => [(key, n)]
  | (k, old) :: rest =>
      if same_key k key then (k, n) :: rest
      else (k, old) :: Map_set key n rest
  end.

(** [map.get(key)]. *)
Fixpoint Map_get (key : value) (m : list (value * node)) : option node :=
  match m with
  | [] => None
  | (k, n) :: rest => if same_key k key then Some n else Map_get key rest
  end.

(** How deep arrays and objects are nested in a value. *)
Fixpoint depth (v : value) : nat :=
  match v with
  | VArr xs => S (list_max (map depth xs))
  | VObj ps => S (list_max (map (fun p => depth (snd p)) ps))
  | _ => 0
  end.

(** Calls on live nodes. *)
Definition on_node (n : node) (f : Element -> Element) : M unit :=
  modify (fun w => set_document (alter f n (document w)) w).

(** [el.innerText = v] on a node without element children. *)
Definition set_innerText (el : node) (v : value) : M unit :=
  on_node el (fun e => mkElement (tagName e) [Text v] (applied e)).

(** [el.innerHTML = ""]. *)
Definition clear_innerHTML (el : node) : M unit :=
  on_node el (fun e => mkElement (tagName e) [] (applied e)).

(** [parent.appendChild(child)] for a child that has no parent yet. *)
Definition appendChild (parent child : node) : M unit :=
  on_node parent (fun e =>
    mkElement (tagName e) (childNodes e ++ [Child child]) (applied e)).

Definition apply_op (el : node) (op : dom_op) : M unit :=
  on_node el (fun e =>
    mkElement (tagName e) (childNodes e) (applied e ++ [op])).

Section Host.

(** The two name checks of the document, which are not part of the
    framework: whether [document.createElement(tag)] accepts the value it
    is given as a name, and whether [setAttribute(name, _)] accepts the
    attribute name.  A refused name is an [InvalidCharacterError]. *)
Variable createElement_accepts : value -> bool.
Variable setAttribute_accepts : string -> bool.

(** [document.createElement(tag)]. *)
Definition createElement (tag : value) : M node :=
  if createElement_accepts tag then
    fun w =>
      let n := next_node w in
      (set_next_node (S n)
         (set_document (<[n := mkElement tag [] []]> (document w)) w),
       Return n)
  else throw InvalidCharacterError.

(** [el.setAttribute(name, v.toString())]. *)
Definition setAttribute (el : node) (name : string) (v : value) : M unit :=
  if setAttribute_accepts name then apply_op el (SetAttribute name v)
  else throw InvalidCharacterError.

(** The branches of the attribute loop that do not bind a listener. *)
Definition plainAttribute (el : node) (attrName : string) (attrValue : value)
  : M unit :=
  if String.eqb attrName "checked" then
    if truthy attrValue then
      apply_op el (SetChecked true) >>
      setAttribute el "checked" (VStr "checked")
    else
      apply_op el (SetChecked false) >>
      apply_op el (RemoveAttribute "checked")
  else if negb (is_null attrValue) && negb (is_undefined attrValue) then
    setAttribute el attrName attrValue
  else ret tt.

(** The body of the loop over [Object.entries(elem.attributes)]. *)
Definition applyAttribute (el : node) (attr : string * value) : M unit :=
  let '(attrName, attrValue) := attr in
  match attrValue with
  | VFun handler =>
      if startsWith attrName "on" then
        apply_op el
          (AddEventListener (toLowerCase (substring_from 2 attrName)) handler)
      else plainAttribute el attrName attrValue
  | _ => plainAttribute el attrName attrValue
  end.

(** The test on [elem.attributes]; no value of the model is a
    [NamedNodeMap]. *)
Definition not_a_plain_object (attributes : value) : bool :=
  negb (truthy attributes)
  || negb (String.eqb (typeof attributes) "object")
  || is_null attributes
  || isArray attributes.

(** [elementToHtmlElement(elem)], the recursion bounded by [fuel]. *)
Fixpoint elementToHtmlElement_fuel (fuel : nat) (elem : value) : M node :=
  match fuel with
  | O => fun w => (w, NoFuel)
  | S fuel' =>
      if negb (String.eqb (typeof elem) "object") then
        throw (Error "Error: ${elem} is not an object")
      else if is_null elem then throw TypeError
      else
        let* returnElement := createElement (get_prop elem "tag") in
        modify (fun w =>
          set_virtualToDomMap
            (Map_set (get_prop elem "id") returnElement (virtualToDomMap w))
            w) >>
        modify (fun w =>
          set_domToVirtualMap
            (<[returnElement := elem]> (domToVirtualMap w)) w) >>
        when (truthy (get_prop elem "innerText"))
          (set_innerText returnElement (get_prop elem "innerText")) >>
        (if not_a_plain_object (get_prop elem "attributes") then
           throw (Error "Error: elem.attributes is not a plain object")
         else ret tt) >>
        forEach (entries (get_prop elem "attributes"))
          (applyAttribute returnElement) >>
        match get_prop elem "children" with
        | VArr children =>
            forEach children (fun child =>
              let* c := elementToHtmlElement_fuel fuel' child in
              appendChild returnElement c)
        | _ => throw TypeError
        end >>
        ret returnElement
  end.

(** [elementToHtmlElement(elem)]: the nesting of [elem] bounds the
    recursion (see [elementToHtmlElement_fuel_enough]). *)
Definition elementToHtmlElement (elem : value) : M node :=
  elementToHtmlElement_fuel (S (depth elem)) elem.

(** [updateDom(topElement, attachElements)]. *)
Definition updateDom (topElement : node) (attachElements : value) : M unit :=
  if negb (truthy attachElements) || negb (isArray attachElements) then
    throw (Error "Error: attachElements is not an array")
  else
    forEach (elements attachElements) (fun element =>
      if negb (String.eqb (typeof element) "object") then
        throw (Error "Error: element is not an object")
      else ret tt) >>
    modify (set_virtualToDomMap []) >>
    globalStorage_setState
      (VObj [("vDOM", attachElements); ("topElement", VNode topElement)])
      (VBool false) >>
    clear_innerHTML topElement >>
    forEach (elements attachElements) (fun element =>
      let* c := elementToHtmlElement element in
      appendChild topElement c).

End Host.

(** ** framework/app.js: the class [App] *)

Record App : Type := mkApp {
  rootElement : option node;
  rootSelector : string;
  renderFunction : option fn;
  isInitialized : bool
}.

(** The page: the application object, the world of the framework's
    modules, and what [App] adds to the host: the listeners it has put on
    [hashchange] (each dispatches the fragment shown) and the lines it has
    written with [console.warn]. *)
Record Page : Type := mkPage {
  app : App;
  world : World;
  hashchange_listeners : nat;
  warnings : list string
}.

Definition set_app (a : App) (p : Page) : Page :=
  mkPage a (world p) (hashchange_listeners p) (warnings p).

Definition set_world (w : World) (p : Page) : Page :=
  mkPage (app p) w (hashchange_listeners p) (warnings p).

(** Statements of the methods of [App]. *)
Definition MP (A : Type) : Type := Page -> Page * outcome A.

Definition retP {A} (a : A) : MP A := fun p => (p, Return a).

Definition throwP {A} (e : error) : MP A := fun p => (p, Throw e).

Definition bindP {A B} (m : MP A) (k : A -> MP B) : MP B :=
  fun p =>
    match m p with
    | (p', Return a) => k a p'
    | (p', Throw e) => (p', Throw e)
    | (p', NoFuel) => (p', NoFuel)
    end.

Notation "'let+' x ':=' m 'in' k" := (bindP m (fun x => k))
  (at level 10, x name, m at level 100, k at level 200) : js_scope.
Notation "m '>>+' k" := (bindP m (fun _ => k))
  (at level 90, right associativity) : js_scope.

(** A statement of the modules, run on the world of the page. *)
Definition on_world {A} (m : M A) : MP A :=
  fun p => let '(w', o) := m (world p) in (set_world w' p, o).

Definition modify_app (f : App -> App) : MP unit :=
  fun p => (set_app (f (app p)) p, Return tt).

(** [new App(rootSelector)]. *)
Definition new_App (selector : string) : App :=
  {| rootElement := None; rootSelector := selector;
     renderFunction := None; isInitialized := false |}.

(** The double quote. *)
Definition quote : string := String (ascii_of_nat 34) EmptyString.

Section AppHost.

Variable createElement_accepts : value -> bool.
Variable setAttribute_accepts : string -> bool.

(** [document.querySelector(selector)] in the document as it is: the first
    node that matches or [null]; a selector the document cannot parse is
    thrown back. *)
Variable querySelector : string -> World -> outcome (option node).

(** What a function of the consumer returns when the framework calls it
    without argument. *)
Variable returned : fn -> World -> value.

(** The function [() => this.render()] given to the store. *)
Variable rerender : fn.

(** [setRenderFunction(renderFn)]. *)
Definition setRenderFunction (renderFn : value) : MP unit :=
  match renderFn with
  | VFun f =>
      modify_app (fun a =>
        mkApp (rootElement a) (rootSelector a) (Some f) (isInitialized a)) >>+
      on_world (modify (fun w =>
        set_globalStorage (setUpdateCallback rerender (globalStorage w)) w))
  | _ => throwP (Error "Render function must be a function")
  end.

(** [App.addRoute(path, handler)]: the answer of the router is dropped. *)
Definition App_addRoute (path handler : value) : MP unit :=
  on_world (let* _ := addRoute path handler in ret tt).

(** [render()]. *)
Definition render : MP unit :=
  fun p =>
    match renderFunction (app p) with
    | None =>
        throwP
          (Error "No render function set. Use setRenderFunction() first.") p
    | Some f =>
        match rootElement (app p) with
        | None => throwP (Error "App not initialized. Call init() first.") p
        | Some root =>
            on_world
              (emit (Invoke f []) >>
               let* vdom := read (returned f) in
               updateDom createElement_accepts setAttribute_accepts root
                 (if isArray vdom then vdom else VArr [vdom])) p
        end
    end.

(** [init()]. *)
Definition init : MP unit :=
  fun p =>
    if isInitialized (app p) then
      (mkPage (app p) (world p) (hashchange_listeners p)
         (warnings p ++ ["App already initialized"]), Return tt)
    else
      (let+ found := (fun p => (p, querySelector (rootSelector (app p))
                                     (world p))) in
       modify_app (fun a =>
         mkApp found (rootSelector a) (renderFunction a) (isInitialized a)) >>+
       match found with
       | None =>
           fun p =>
             throwP (Error (String.append "Root element with selector "
                              (String.append quote
                                 (String.append (rootSelector (app p))
                                    (String.append quote " not found"))))) p
       | Some _ => retP tt
       end >>+
       (fun p => (mkPage (app p) (world p) (S (hashchange_listeners p))
                    (warnings p), Return tt)) >>+
       on_world (fun w =>
         executeRoute
           (if String.eqb (location_hash w) "" then "#/" else location_hash w)
           w) >>+
       modify_app (fun a =>
         mkApp (rootElement a) (rootSelector a) (renderFunction a) true) >>+
       on_world (emit (ConsoleLog [VStr "App initialized (v1.0.0)"])) >>+
       render) p.

(** [App.getState()] and [App.setState(newState, triggerUpdate = true)]. *)
Definition App_getState (p : Page) : gmap string value :=
  getState (globalStorage (world p)).

Definition App_setState (newState triggerUpdate : value) : MP bool :=
  on_world
    (globalStorage_setState newState (default_arg triggerUpdate (VBool true))).

End AppHost.

(** ** TodoMVC/ToDoApp.js: the operations on the list of todos

    The application keeps its todos in the store of the framework, where
    they are values like any other: the operations test nothing of what
    they read there.  Their parameters have the types their documentation
    gives them: an [id] is a number, a title is a string.  As everywhere,
    the calls the store makes on a change (the listeners and the
    re-rendering callback) are recorded, not run. *)

(** *** Expressions

    Property reads and array methods return or throw, and change
    nothing. *)

Definition bindE {A B} (o : outcome A) (k : A -> outcome B) : outcome B :=
  match o with
  | Return a => k a
  | Throw e => Throw e
  | NoFuel => NoFuel
  end.

Notation "'let!' x ':=' o 'in' k" := (bindE o (fun x => k))
  (at level 10, x name, o at level 100, k at level 200) : js_scope.

(** An expression where a statement of the page is expected. *)
Definition eval {A} (o : outcome A) : MP A := fun p => (p, o).

(** [state.k] for the object the store holds. *)
Definition field (object : gmap string value) (k : string) : value :=
  default VUndefined (object !! k).

(** [v.k]: reading a property of [null] or [undefined] is a TypeError. *)
Definition member (v : value) (k : string) : outcome value :=
  if is_null v || is_undefined v then Throw TypeError
  else Return (get_prop v k).

(** [a || b]. *)
Definition or_else (a b : value) : value := if truthy a then a else b.

(** [a === b].  It differs from the comparison of keys only on NaN, which
    is no value of the model.  The operations compare with a number or
    with a string literal, where the lack of identity of arrays and
    objects (see [same_key]) does not matter. *)
Definition strict_equal (a b : value) : bool := same_key a b.

(** The loops of [filter], [map] and [every]: the callback is called on
    each member in turn; [every] stops at the first member for which the
    callback returns something falsy. *)
Fixpoint filter_loop (callback : value -> outcome value) (xs : list value)
  : outcome (list value) :=
  match xs with
  | [] => Return []
  | x :: rest =>
      let! kept := callback x in
      let! others := filter_loop callback rest in
      Return (if truthy kept then x :: others else others)
  end.

Fixpoint map_loop (callback : value -> outcome value) (xs : list value)
  : outcome (list value) :=
  match xs with
  | [] => Return []
  | x :: rest =>
      let! y := callback x in
      let! others := map_loop callback rest in
      Return (y :: others)
  end.

Fixpoint every_loop (callback : value -> outcome value) (xs : list value)
  : outcome bool :=
  match xs with
  | [] => Return true
  | x :: rest =>
      let! passed := callback x in
      if truthy passed then every_loop callback rest else Return false
  end.

(** [v.filter(callback)], [v.map(callback)] and [v.every(callback)].
    Among the values of the model only arrays have these methods: on
    anything else the call is a TypeError.  (An object that holds a
    function under one of these names would have that function called;
    the application never stores one, and the model lets the call on it
    fail like the others.) *)
Definition Array_filter (v : value) (callback : value -> outcome value)
  : outcome value :=
  match v with
  | VArr xs => let! kept := filter_loop callback xs in Return (VArr kept)
  | _ => Throw TypeError
  end.

Definition Array_map (v : value) (callback : value -> outcome value)
  : outcome value :=
  match v with
  | VArr xs => let! ys := map_loop callback xs in Return (VArr ys)
  | _ => Throw TypeError
  end.

Definition Array_every (v : value) (callback : value -> outcome value)
  : outcome bool :=
  match v with
  | VArr xs => every_loop callback xs
  | _ => Throw TypeError
  end.

(** [v.length > 0].  Arrays and strings have a length the model knows;
    for the other values the test is taken to fail ([toggleAll], the only
    reader, throws on them on either side of the test: they have neither
    [every] nor [map]). *)
Definition length_positive (v : value) : bool :=
  match v with
  | VArr xs => Nat.ltb 0 (length xs)
  | VStr s => Nat.ltb 0 (String.length s)
  | _ => false
  end.

(** The characters of a string, each a string. *)
Fixpoint characters (s : string) : list value :=
  match s with
  | EmptyString => []
  | String c rest => VStr (String c EmptyString) :: characters rest
  end.

(** The members a spread [[...v]] takes from [v]: arrays and strings can
    be iterated, nothing else in the model can. *)
Definition iterate (v : value) : outcome (list value) :=
  match v with
  | VArr xs => Return xs
  | VStr s => Return (characters s)
  | _ => Throw TypeError
  end.

(** The properties a spread [{ ...v }] copies: the own enumerable ones,
    which for a string are its characters under their indices; [null],
    [undefined] and the other primitives give none. *)
Definition spread_entries (v : value) : list (string * value) :=
  match v with
  | VStr s => index_entries 0 (characters s)
  | _ => entries v
  end.

(** Writing [k: x] after a spread: a key that is there keeps its place and
    takes the new value, a new key comes last. *)
Fixpoint assign (k : string) (x : value) (props : list (string * value))
  : list (string * value) :=
  match props with
  | [] => [(k, x)]
  | (k', old) :: rest =>
      if String.eqb k' k then (k', x) :: rest
      else (k', old) :: assign k x rest
  end.

(** The object literal [{ ...v, k: x }]. *)
Definition spread_with (v : value) (k : string) (x : value) : value :=
  VObj (assign k x (spread_entries v)).

(** *** The operations *)

(** [getFilteredTodos(todos, filter)]. *)
Definition getFilteredTodos (todos filter : value) : outcome value :=
  if strict_equal filter (VStr "active") then
    Array_filter (or_else todos (VArr [])) (fun todo =>
      let! completed := member todo "completed" in
      Return (VBool (negb (truthy completed))))
  else if strict_equal filter (VStr "completed") then
    Array_filter (or_else todos (VArr [])) (fun todo =>
      member todo "completed")
  else Return todos.

(** [setFilter(filter)]. *)
Definition setFilter (filter : string) : MP unit :=
  App_setState (VObj [("filter", VStr filter)]) VUndefined >>+ retP tt.

(** [toggleTodo(id)]. *)
Definition toggleTodo (id : Z) : MP unit :=
  fun p =>
    let state := App_getState p in
    (let+ updatedTodos :=
       eval (Array_map (or_else (field state "todos") (VArr [])) (fun todo =>
         let! its_id := member todo "id" in
         if strict_equal its_id (VNum id) then
           let! completed := member todo "completed" in
           Return (spread_with todo "completed"
                     (VBool (negb (truthy completed))))
         else Return todo)) in
     App_setState (VObj [("todos", updatedTodos)]) VUndefined >>+ retP tt) p.

(** [deleteTodo(id)]. *)
Definition deleteTodo (id : Z) : MP unit :=
  fun p =>
    let state := App_getState p in
    (let+ updatedTodos :=
       eval (Array_filter (or_else (field state "todos") (VArr []))
               (fun todo =>
                  let! its_id := member todo "id" in
                  Return (VBool (negb (strict_equal its_id (VNum id)))))) in
     App_setState (VObj [("todos", updatedTodos)]) VUndefined >>+ retP tt) p.

(** [toggleAll()]. *)
Definition toggleAll : MP unit :=
  fun p =>
    let state := App_getState p in
    (let+ allCompleted :=
       eval (if length_positive (or_else (field state "todos") (VArr [])) then
               Array_every (or_else (field state "todos") (VArr []))
                 (fun todo => member todo "completed")
             else Return false) in
     let+ updatedTodos :=
       eval (Array_map (or_else (field state "todos") (VArr [])) (fun todo =>
         Return (spread_with todo "completed" (VBool (negb allCompleted))))) in
     App_setState (VObj [("todos", updatedTodos)]) VUndefined >>+ retP tt) p.

(** [clearCompleted()]. *)
Definition clearCompleted : MP unit :=
  fun p =>
    let state := App_getState p in
    (let+ activeTodos :=
       eval (Array_filter (or_else (field state "todos") (VArr []))
               (fun todo =>
                  let! completed := member todo "completed" in
                  Return (VBool (negb (truthy completed))))) in
     App_setState (VObj [("todos", activeTodos)]) VUndefined >>+ retP tt) p.

Section TodoHost.

(** The operator [+] and the method [trim] of strings, which the model
    leaves to the host. *)
Variable add : value -> value -> value.
Variable trim : string -> string.

(** [addTodo(title)]. *)
Definition addTodo (title : string) : MP bool :=
  on_world (emit (ConsoleLog [VStr "addTodo function"])) >>+
  if Nat.ltb (String.length title) 2 then retP false
  else
    fun p =>
      let currentState := App_getState p in
      let newTodo :=
        VObj [("id", field currentState "nextId"); ("title", VStr title);
              ("completed", VBool false)] in
      (let+ todos := eval (iterate (field currentState "todos")) in
       App_setState
         (VObj [("todos", VArr (todos ++ [newTodo]));
                ("nextId", add (field currentState "nextId") (VNum 1))])
         VUndefined >>+
       retP true) p.

(** [editTodo(id, newTitle)]. *)
Definition editTodo (id : Z) (newTitle : string) : MP unit :=
  on_world (emit (ConsoleLog [VStr "editTodo function"])) >>+
  let trimmedTitle := trim newTitle in
  if Nat.ltb (String.length trimmedTitle) 2 then retP tt
  else if String.eqb trimmedTitle "" then deleteTodo id
  else
    fun p =>
      let state := App_getState p in
      (let+ updatedTodos :=
         eval (Array_map (or_else (field state "todos") (VArr []))
                 (fun todo =>
                    let! its_id := member todo "id" in
                    if strict_equal its_id (VNum id) then
                      Return (spread_with todo "title" (VStr trimmedTitle))
                    else Return todo)) in
       App_setState
         (VObj [("todos", updatedTodos); ("editingId", VNull);
                ("focusEditTodo", VNull)])
         VUndefined >>+
       retP tt) p.

End TodoHost.

(** What the module does to the store when it is loaded. *)
Definition TodoMVC_state : value :=
  VObj [("todos", VArr []); ("filter", VStr "all"); ("nextId", VNum 1);
        ("editingId", VNull); ("focusEditTodo", VNull)].

(** * Properties *)

(** ** Notions used in the statements *)

(** An object in the sense of [setState]'s check: [typeof] gives
    ["object"] and the value is not [null]. *)
Definition is_object (v : value) : bool :=
  String.eqb (typeof v) "object" && negb (is_null v).

(** The program as loaded, before the consumer has done anything: an empty
    store, no route, empty tables, a document that holds the node [0] (the
    body) and an address without fragment. *)
Definition initial_world : World :=
  {| globalStorage := new_State VUndefined;
     allRoutes := ∅;
     virtualToDomMap := [];
     domToVirtualMap := ∅;
     document := {[ 0 := mkElement (VStr "body") [] [] ]};
     next_node := 1;
     location_hash := "";
     trace := [] |}.

(** The first three steps of [executeRoute] as functions of its argument:
    the url without one leading fragment marker, the path dispatched on,
    and that path with the marker it is compared and pushed with. *)
Definition strip_marker (url : string) : string :=
  if startsWith url "#" then substring_from 1 url else url.

Definition resolved_path (url : string) (w : World) : string :=
  if has_route (strip_marker url) w then strip_marker url else "/".

Definition with_marker (path : string) : string :=
  if startsWith path "#" then path else String.append "#" path.

(** The structural invariant of the specification's element model, on a
    whole tree: every node is an object with a non-empty string [tag], an
    object [attributes], an [innerText] that is absent or a string, and an
    array [children] of such nodes. *)
Inductive well_formed : value -> Prop :=
  | well_formed_node (props : list (string * value)) (tag : string)
      (attrs : list (string * value)) (children : list value) :
      get_prop (VObj props) "tag" = VStr tag ->
      tag <> "" ->
      get_prop (VObj props) "attributes" = VObj attrs ->
      (get_prop (VObj props) "innerText" = VUndefined
       \/ exists text, get_prop (VObj props) "innerText" = VStr text) ->
      get_prop (VObj props) "children" = VArr children ->
      Forall well_formed children ->
      well_formed (VObj props).

(** What [createVirtualElement] asks of its own four arguments, and of each
    member of [children] (and of nothing below). *)
Definition arguments_accepted (tag attributes innerText children : value)
  : Prop :=
  (exists t, tag = VStr t /\ t <> "")
  /\ is_object attributes = true
  /\ (truthy innerText = false \/ exists text, innerText = VStr text)
  /\ exists cs, children = VArr cs.

Definition child_accepted (child : value) : Prop :=
  is_object child = true
  /\ (exists t, get_prop child "tag" = VStr t)
  /\ instanceof_Object (get_prop child "attributes") = true
  /\ exists cs, get_prop child "children" = VArr cs.

(** [above b w w']: going from [w] to [w'], nodes were only created, the
    nodes below [b] are as they were, the forward table has received no
    node below [b], and nothing outside the document and the renderer's
    two tables has changed. *)
Definition above (b : node) (w w' : World) : Prop :=
  next_node w <= next_node w'
  /\ (forall n, n < b -> document w' !! n = document w !! n)
  /\ (forall n, In n (virtualToDomMap w').*2 ->
                In n (virtualToDomMap w).*2 \/ b <= n)
  /\ trace w' = trace w
  /\ globalStorage w' = globalStorage w
  /\ allRoutes w' = allRoutes w
  /\ location_hash w' = location_hash w.

(** [materializes b m Q]: run where all nodes from [b] on are yet to be
    created or were created by the current pass, the statement [m] stays
    [above b], whether it returns or throws, and returns only values that
    satisfy [Q]. *)
Definition materializes {A} (b : node) (m : M A) (Q : A -> Prop) : Prop :=
  forall w, b <= next_node w ->
    above b w (m w).1 /\ forall a, (m w).2 = Return a -> Q a.

(** [terminates m]: the recursion in [m] is never cut short. *)
Definition terminates {A} (m : M A) : Prop :=
  forall w, (m w).2 <> NoFuel.

(** The first loop of [updateDom]: every element has type ["object"]. *)
Definition elements_are_objects (attachElements : value) : bool :=
  forallb (fun element => String.eqb (typeof element) "object")
    (elements attachElements).

(** The world [updateDom] has made when it starts to materialize: the
    forward table emptied, the tree and the container written to the store,
    the container emptied. *)
Definition prepared (topElement : node) (attachElements : value) (w : World)
  : World :=
  set_document
    (alter (fun e => mkElement (tagName e) [] (applied e)) topElement
       (document w))
    (set_globalStorage
       {| state :=
            spread (state (globalStorage w))
              (VObj [("vDOM", attachElements);
                     ("topElement", VNode topElement)]);
          listeners := listeners (globalStorage w);
          updateCallback := updateCallback (globalStorage w) |}
       (set_virtualToDomMap [] w)).

(** The child nodes of a live node. *)
Definition children_of (n : node) (w : World) : option (list content) :=
  childNodes <$> document w !! n.

(** A document that refuses no name, for the examples; the names they use
    ([div], [p], [class]) are names every document accepts. *)
Definition any_tag : value -> bool := fun _ => true.
Definition any_attribute : string -> bool := fun _ => true.

(** The calls the attribute loop of [elementToHtmlElement] makes on the
    node for one attribute, when none is refused. *)
Definition plain_ops (name : string) (v : value) : list dom_op :=
  if String.eqb name "checked" then
    if truthy v then [SetChecked true; SetAttribute "checked" (VStr "checked")]
    else [SetChecked false; RemoveAttribute "checked"]
  else if negb (is_null v) && negb (is_undefined v) then [SetAttribute name v]
  else [].

Definition attribute_ops (attr : string * value) : list dom_op :=
  match attr.2 with
  | VFun handler =>
      if startsWith attr.1 "on" then
        [AddEventListener (toLowerCase (substring_from 2 attr.1)) handler]
      else plain_ops attr.1 attr.2
  | _ => plain_ops attr.1 attr.2
  end.

(** The node [el] after more calls on it. *)
Definition with_ops (el : node) (ops : list dom_op) (w : World) : World :=
  set_document
    (alter (fun e => mkElement (tagName e) (childNodes e) (applied e ++ ops))
       el (document w))
    w.

(** The text [elementToHtmlElement] gives the node of an element. *)
Definition text_of (elem : value) : list content :=
  if truthy (get_prop elem "innerText") then [Text (get_prop elem "innerText")]
  else [].

(** The world in which [elementToHtmlElement(elem)] turns to the children
    of [elem], when nothing was refused up to there: the new node is in
    both tables and holds its tag, text and attributes. *)
Definition started (elem : value) (w : World) : World :=
  {| globalStorage := globalStorage w;
     allRoutes := allRoutes w;
     virtualToDomMap :=
       Map_set (get_prop elem "id") (next_node w) (virtualToDomMap w);
     domToVirtualMap := <[next_node w := elem]> (domToVirtualMap w);
     document :=
       <[next_node w :=
           mkElement (get_prop elem "tag") (text_of elem)
             (flat_map attribute_ops (entries (get_prop elem "attributes")))]>
         (document w);
     next_node := S (next_node w);
     location_hash := location_hash w;
     trace := trace w |}.

Section RenderingNotions.

Variable createElement_accepts : value -> bool.
Variable setAttribute_accepts : string -> bool.

(** The document accepts every attribute name the loop would set for this
    attribute. *)
Definition attribute_accepted (attr : string * value) : bool :=
  forallb (fun op =>
    match op with
    | SetAttribute name _ => setAttribute_accepts name
    | _ => true
    end) (attribute_ops attr).

(** What [elementToHtmlElement] needs of a tree to go through: every node
    is an object other than [null], has a tag the document accepts as a
    name, a plain object as attributes with names the document accepts,
    and an array as children, of such nodes. *)
Inductive renderable : value -> Prop :=
  | renderable_node (elem : value) (children : list value) :
      is_object elem = true ->
      createElement_accepts (get_prop elem "tag") = true ->
      not_a_plain_object (get_prop elem "attributes") = false ->
      forallb attribute_accepted (entries (get_prop elem "attributes")) = true ->
      get_prop elem "children" = VArr children ->
      Forall renderable children ->
      renderable elem.

(** [renders run elem]: in every world [run elem] returns the next node,
    creates nodes only, leaves the document and the reverse table as they
    were for the nodes that existed, records [elem] for the new node in
    the reverse table, and makes the new node hold the tag of [elem], its
    text followed by one new child node per member of its children, and
    the calls of its attributes in order. *)
Definition renders (run : value -> M node) (elem : value) : Prop :=
  forall w, exists (w' : World) (kids : list node),
    run elem w = (w', Return (next_node w))
    /\ next_node w < next_node w'
    /\ (forall m : node, m < next_node w ->
          document w' !! m = document w !! m
          /\ domToVirtualMap w' !! m = domToVirtualMap w !! m)
    /\ domToVirtualMap w' !! next_node w = Some elem
    /\ length kids = length (elements (get_prop elem "children"))
    /\ Forall (fun k : node => next_node w < k < next_node w') kids
    /\ document w' !! next_node w
       = Some (mkElement (get_prop elem "tag")
                 (text_of elem ++ (Child <$> kids))
                 (flat_map attribute_ops (entries (get_prop elem "attributes")))).

End RenderingNotions.

(** *** The list of todos *)

(** A todo as the application documents it, and the object that holds
    it. *)
Record Todo : Type := mkTodo {
  todo_id : Z;
  todo_title : string;
  todo_completed : bool
}.

Definition todo_value (t : Todo) : value :=
  VObj [("id", VNum (todo_id t)); ("title", VStr (todo_title t));
        ("completed", VBool (todo_completed t))].

Definition todos_value (ts : list Todo) : value := VArr (todo_value <$> ts).

(** A value on which a property can be read. *)
Definition defined (v : value) : bool :=
  negb (is_null v) && negb (is_undefined v).

(** What the operations test on a member of the list. *)
Definition is_completed (todo : value) : bool :=
  truthy (get_prop todo "completed").

Definition has_id (id : Z) (todo : value) : bool :=
  strict_equal (get_prop todo "id") (VNum id).

(** The calls the store of the page makes when its state changes. *)
Definition notifications (p : Page) : list event :=
  let s := globalStorage (world p) in
  update s ++
  match updateCallback s with
  | Some callback => [Invoke callback []]
  | None => []
  end.

(** The page after its store has merged the object [{ props }] and told
    its listeners. *)
Definition written (props : list (string * value)) (p : Page) : Page :=
  let s := globalStorage (world p) in
  set_world
    (set_trace (trace (world p) ++ notifications p)
       (set_globalStorage
          (mkState (spread (state s) (VObj props)) (listeners s)
             (updateCallback s))
          (world p)))
    p.

(** The page after a line on the console. *)
Definition logged (line : string) (p : Page) : Page :=
  set_world (set_trace (trace (world p) ++ [ConsoleLog [VStr line]]) (world p))
    p.

(** The changes the operations make to one todo. *)
Definition toggled (id : Z) (t : Todo) : Todo :=
  if (todo_id t =? id)%Z then
    mkTodo (todo_id t) (todo_title t) (negb (todo_completed t))
  else t.

Definition retitled (id : Z) (title : string) (t : Todo) : Todo :=
  if (todo_id t =? id)%Z then mkTodo (todo_id t) title (todo_completed t)
  else t.

Definition marked (completed : bool) (t : Todo) : Todo :=
  mkTodo (todo_id t) (todo_title t) completed.

(** An operator [+] that is exact on the successor of an integer a double
    holds exactly, as the one of JavaScript is. *)
Definition counts_exactly (add : value -> value -> value) : Prop :=
  forall n : Z, (Z.abs n < 2 ^ 53)%Z -> add (VNum n) (VNum 1) = VNum (n + 1).

(** Such an operator, and a [trim] that removes blanks at both ends. *)
Definition integer_add (a b : value) : value :=
  match a, b with
  | VNum x, VNum y => VNum (x + y)
  | _, _ => VUndefined
  end.

Fixpoint trim_start (s : string) : string :=
  match s with
  | String " " rest => trim_start rest
  | _ => s
  end.

Definition blank_trim (s : string) : string :=
  String.rev (trim_start (String.rev (trim_start s))).

(** What the user can ask of the list. *)
Inductive operation : Type :=
  | AddTodo (title : string)
  | ToggleTodo (id : Z)
  | EditTodo (id : Z) (newTitle : string)
  | DeleteTodo (id : Z)
  | ToggleAll
  | ClearCompleted
  | SetFilter (filter : string).

Section Operations.

Variable add : value -> value -> value.
Variable trim : string -> string.

Definition perform (op : operation) : MP unit :=
  match op with
  | AddTodo title => addTodo add title >>+ retP tt
  | ToggleTodo id => toggleTodo id
  | EditTodo id newTitle => editTodo trim id newTitle
  | DeleteTodo id => deleteTodo id
  | ToggleAll => toggleAll
  | ClearCompleted => clearCompleted
  | SetFilter filter => setFilter filter
  end.

Fixpoint perform_all (ops : list operation) : MP unit :=
  match ops with
  | [] => retP tt
  | op :: rest => perform op >>+ perform_all rest
  end.

End Operations.

(** The list of the page is in order: the store holds todos as the
    application documents them, their ids are distinct and all below the
    next id to be given, which is positive and at most [limit]. *)
Definition consistent (limit : Z) (p : Page) : Prop :=
  exists (ts : list Todo) (n : Z),
    App_getState p !! "todos" = Some (todos_value ts)
    /\ App_getState p !! "nextId" = Some (VNum n)
    /\ (0 < n <= limit)%Z
    /\ Forall (fun t => (todo_id t < n)%Z) ts
    /\ NoDup (todo_id <$> ts).


(** ** Values *)

Lemma decimal_inj (i j : nat) : decimal i = decimal j -> i = j.
Proof.
  unfold decimal. intros H.
  apply DecimalNat.Unsigned.to_uint_inj.
  pose proof (NilEmpty.usu (Nat.to_uint i)) as Hi.
  pose proof (NilEmpty.usu (Nat.to_uint j)) as Hj.
  rewrite H in Hi. congruence.
Qed.

Lemma index_entries_lookup (elems : list value) (n i : nat) :
  (list_to_map (index_entries n elems) : gmap string value) !! decimal (n + i)
  = elems !! i.
Proof.
  revert n i. induction elems as [|x rest IH]; intros n i; simpl.
  - by rewrite lookup_empty.
  - destruct i as [|i].
    + rewrite Nat.add_0_r. by rewrite lookup_insert_eq.
    + rewrite lookup_insert_ne.
      * replace (n + S i) with (S n + i) by lia. apply IH.
      * intros H. apply decimal_inj in H. lia.
Qed.

Lemma index_entries_other (elems : list value) (n : nat) (k : string) :
  (forall i, i < length elems -> k <> decimal (n + i)) ->
  (list_to_map (index_entries n elems) : gmap string value) !! k = None.
Proof.
  revert n. induction elems as [|x rest IH]; intros n Hk; simpl.
  - by rewrite lookup_empty.
  - rewrite lookup_insert_ne.
    + apply IH. intros i Hi.
      replace (S n + i) with (n + S i) by lia. apply Hk. simpl. lia.
    + intros <-. apply (Hk 0); simpl; [lia | by rewrite Nat.add_0_r].
Qed.

(** The own properties of an array are its elements under their indices. *)
Lemma own_props_array (elems : list value) (i : nat) :
  own_props (VArr elems) !! decimal i = elems !! i.
Proof. apply (index_entries_lookup elems 0 i). Qed.

Lemma own_props_array_other (elems : list value) (k : string) :
  (forall i, i < length elems -> k <> decimal i) ->
  own_props (VArr elems) !! k = None.
Proof. intros H. by apply (index_entries_other elems 0 k). Qed.

(** ** The store *)

Lemma setState_rejects (newVal triggerUpdate : value) (s : State) :
  is_object newVal = false ->
  setState newVal triggerUpdate s = (s, [], false).
Proof.
  unfold is_object, setState. intros H.
  destruct (String.eqb (typeof newVal) "object"), (is_null newVal);
    simpl in *; congruence.
Qed.

Lemma setState_accepts (newVal triggerUpdate : value) (s : State) :
  is_object newVal = true ->
  exists calls,
    setState newVal triggerUpdate s
    = ({| state := spread (state s) newVal; listeners := listeners s;
          updateCallback := updateCallback s |}, calls, true).
Proof.
  unfold is_object, setState. intros H.
  destruct (String.eqb (typeof newVal) "object"), (is_null newVal);
    simpl in *; try congruence.
  destruct (truthy _); eauto.
Qed.

(** A call that returns [true] was given an object and has merged it. *)
Lemma setState_true (newVal triggerUpdate : value) (s s' : State)
    (calls : list event) :
  setState newVal triggerUpdate s = (s', calls, true) ->
  getState s' = own_props newVal ∪ getState s
  /\ listeners s' = listeners s /\ updateCallback s' = updateCallback s.
Proof.
  intros H. destruct (is_object newVal) eqn:Hobj.
  - destruct (setState_accepts newVal triggerUpdate s Hobj) as [c Hc].
    rewrite Hc in H. inversion H; subst. by simpl.
  - rewrite setState_rejects in H by done. discriminate.
Qed.

Lemma spread_lookup (target : gmap string value) (source : value) (k : string) :
  spread target source !! k
  = match own_props source !! k with
    | Some v => Some v
    | None => target !! k
    end.
Proof.
  unfold spread. rewrite lookup_union.
  destruct (own_props source !! k), (target !! k); reflexivity.
Qed.

(** No call removes a key, whatever it is given and whatever it returns. *)
Lemma setState_keeps_keys (newVal triggerUpdate : value) (s : State)
    (k : string) :
  is_Some (getState s !! k) ->
  is_Some (getState (setState newVal triggerUpdate s).1.1 !! k).
Proof.
  intros Hk. destruct (is_object newVal) eqn:Hobj.
  - destruct (setState_accepts newVal triggerUpdate s Hobj) as [c ->].
    simpl. unfold getState; simpl. rewrite spread_lookup.
    destruct (own_props newVal !! k); [eauto | exact Hk].
  - by rewrite setState_rejects.
Qed.

(** C4. Shallow-merge law: after two calls of [setState] that return
    [true], with partials [p1] then [p2], every key of [p2] has [p2]'s
    value, every key of [p1] that [p2] lacks has [p1]'s value, and every
    other key has the value it had before; no call of [setState] removes a
    key; and [setState({a:1})] then [setState({a:2,b:3})] on a new store
    gives exactly [{a:2,b:3}]. *)
Theorem setState_merge_law :
  (forall (s s1 s2 : State) (p1 p2 t1 t2 : value) (c1 c2 : list event),
      setState p1 t1 s = (s1, c1, true) ->
      setState p2 t2 s1 = (s2, c2, true) ->
      forall k : string,
        (forall v, own_props p2 !! k = Some v -> getState s2 !! k = Some v)
        /\ (forall v, own_props p2 !! k = None -> own_props p1 !! k = Some v ->
                      getState s2 !! k = Some v)
        /\ (own_props p2 !! k = None -> own_props p1 !! k = None ->
            getState s2 !! k = getState s !! k))
  /\ (forall (s : State) (p t : value) (k : string),
         is_Some (getState s !! k) ->
         is_Some (getState (setState p t s).1.1 !! k))
  /\ getState
       (setState (VObj [("a", VNum 2); ("b", VNum 3)]) VUndefined
          (setState (VObj [("a", VNum 1)]) VUndefined
             (new_State VUndefined)).1.1).1.1
     = {[ "a" := VNum 2; "b" := VNum 3 ]}.
Proof.
  split; [| split].
  - intros s s1 s2 p1 p2 t1 t2 c1 c2 H1 H2 k.
    apply setState_true in H1 as (E1 & _ & _).
    apply setState_true in H2 as (E2 & _ & _).
    rewrite E2, E1, !lookup_union.
    repeat split.
    + intros v ->. by destruct (own_props p1 !! k), (getState s !! k).
    + intros v -> ->. by destruct (getState s !! k).
    + intros -> ->. by destruct (getState s !! k).
  - intros s p t k. apply setState_keeps_keys.
  - vm_compute. reflexivity.
Qed.

Lemma setState_merge_law_witness :
  getState
    (setState (VObj [("a", VNum 2); ("b", VNum 3)]) VUndefined
       (setState (VObj [("a", VNum 1)]) (VBool false)
          (new_State VUndefined)).1.1).1.1 !! "b"
  = Some (VNum 3).
Proof.
  pose (s := new_State VUndefined).
  pose (r1 := setState (VObj [("a", VNum 1)]) (VBool false) s).
  pose (r2 := setState (VObj [("a", VNum 2); ("b", VNum 3)]) VUndefined r1.1.1).
  refine (proj1 (proj1 setState_merge_law s r1.1.1 r2.1.1
                   (VObj [("a", VNum 1)])
                   (VObj [("a", VNum 2); ("b", VNum 3)])
                   (VBool false) VUndefined r1.1.2 r2.1.2 _ _ "b")
                (VNum 3) _);
    reflexivity.
Defined.

(** C5. Silent update: [setState(partial, false)] with an object returns
    [true] and makes no call at all (no listener, no update callback); the
    state read next by [getState()] is the merge of [partial] into the
    previous state; the listeners and the update callback are as before. *)
Theorem setState_silent (s : State) (partial : value) :
  is_object partial = true ->
  let '(s', calls, result) := setState partial (VBool false) s in
  result = true
  /\ calls = []
  /\ getState s' = own_props partial ∪ getState s
  /\ (forall k v, own_props partial !! k = Some v -> getState s' !! k = Some v)
  /\ (forall k, own_props partial !! k = None ->
                getState s' !! k = getState s !! k)
  /\ listeners s' = listeners s
  /\ updateCallback s' = updateCallback s.
Proof.
  intros Hobj. unfold is_object in Hobj. unfold setState.
  destruct (String.eqb (typeof partial) "object"), (is_null partial);
    simpl in *; try discriminate.
  unfold getState; simpl. repeat split.
  - intros k v Hk. by rewrite spread_lookup, Hk.
  - intros k Hk. by rewrite spread_lookup, Hk.
Qed.

Lemma setState_silent_witness :
  let '(s', calls, result) :=
    setState (VObj [("vDOM", VArr [])]) (VBool false)
      (setUpdateCallback 7 (new_State (VArr [VFun 1; VFun 2]))) in
  result = true
  /\ calls = []
  /\ getState s' = {[ "vDOM" := VArr [] ]}
  /\ listeners s' = [1; 2]
  /\ updateCallback s' = Some 7.
Proof.
  pose proof (setState_silent
                (setUpdateCallback 7 (new_State (VArr [VFun 1; VFun 2])))
                (VObj [("vDOM", VArr [])]) eq_refl) as H.
  destruct (setState _ _ _) as [[s' calls] result].
  destruct H as (H1 & H2 & H3 & _ & _ & H6 & H7).
  repeat split; [exact H1 | exact H2 | rewrite H3; reflexivity
                | rewrite H6; reflexivity | rewrite H7; reflexivity].
Defined.

(** C10. The check of [setState] lets arrays through: for every array the
    call returns [true], each element is merged into the state under its
    index written in decimal, and all other keys keep their values.  For
    instance [setState(["x", "y"])] on a new store gives
    [{"0": "x", "1": "y"}]. *)
Theorem setState_array (s : State) (a : list value) (triggerUpdate : value) :
  (let '(s', _, result) := setState (VArr a) triggerUpdate s in
   result = true
   /\ (forall i x, a !! i = Some x -> getState s' !! decimal i = Some x)
   /\ (forall k, (forall i, i < length a -> k <> decimal i) ->
                 getState s' !! k = getState s !! k))
  /\ getState (setState (VArr [VStr "x"; VStr "y"]) VUndefined
                 (new_State VUndefined)).1.1
     = {[ "0" := VStr "x"; "1" := VStr "y" ]}.
Proof.
  split; [| vm_compute; reflexivity].
  destruct (setState_accepts (VArr a) triggerUpdate s eq_refl) as [calls ->].
  unfold getState; simpl. repeat split.
  - intros i x Hi. by rewrite spread_lookup, own_props_array, Hi.
  - intros k Hk. by rewrite spread_lookup, own_props_array_other.
Qed.

(** ** The router *)

Lemma has_route_true (path : string) (w : World) :
  has_route path w = true <-> is_Some (allRoutes w !! path).
Proof. unfold has_route. apply bool_decide_eq_true. Qed.

Lemma has_route_false (path : string) (w : World) :
  has_route path w = false <-> allRoutes w !! path = None.
Proof.
  unfold has_route. rewrite bool_decide_eq_false.
  by rewrite eq_None_not_Some.
Qed.

Lemma substring_all (s : string) : String.substring 0 (String.length s) s = s.
Proof. induction s as [|c s IH]; simpl; [done | by rewrite IH]. Qed.

Lemma strip_marker_marked (rest : string) :
  strip_marker (String "#" rest) = rest.
Proof.
  unfold strip_marker, startsWith, substring_from. simpl.
  destruct rest; simpl; rewrite ?Nat.sub_0_r; [done |].
  f_equal. apply substring_all.
Qed.

(** C6. [addRoute(path, handler)] returns [false] and changes nothing when
    [path] is not a string, [handler] is not a function, or [path] is
    already registered; otherwise it adds the mapping and returns [true].
    Registering a path twice: the second call returns [false] and the path
    still maps to the first handler. *)
Theorem addRoute_spec :
  (forall (url handler : value) (w : World),
      typeof url <> "string"
      \/ typeof handler <> "function"
      \/ (exists path, url = VStr path /\ is_Some (allRoutes w !! path)) ->
      addRoute url handler w = (w, Return false))
  /\ (forall (url handler : value) (w : World),
         typeof url = "string" ->
         typeof handler = "function" ->
         (forall path, url = VStr path -> allRoutes w !! path = None) ->
         exists path h,
           url = VStr path /\ handler = VFun h
           /\ addRoute url handler w
              = (set_allRoutes (<[path := h]> (allRoutes w)) w, Return true))
  /\ (forall (path : string) (h1 h2 : fn) (w : World),
         allRoutes w !! path = None ->
         exists w1,
           addRoute (VStr path) (VFun h1) w = (w1, Return true)
           /\ addRoute (VStr path) (VFun h2) w1 = (w1, Return false)
           /\ allRoutes w1 !! path = Some h1).
Proof.
  split; [| split].
  - intros url handler w [H | [H | (path & -> & [h Hh])]].
    + destruct url; try reflexivity. by destruct H.
    + destruct url; try reflexivity.
      destruct handler; try reflexivity. by destruct H.
    + unfold addRoute. destruct handler; try reflexivity. by rewrite Hh.
  - intros url handler w Hu Hh Hfree.
    destruct url; try discriminate. destruct handler; try discriminate.
    eexists _, _. repeat split. unfold addRoute. by rewrite (Hfree s).
  - intros path h1 h2 w Hfree. eexists. unfold addRoute at 1. rewrite Hfree.
    split; [reflexivity |]. unfold addRoute; simpl.
    rewrite lookup_insert_eq. split; reflexivity.
Qed.

Lemma addRoute_spec_witness :
  addRoute (VStr "/x") (VFun 1) initial_world
  = (set_allRoutes {[ "/x" := 1 ]} initial_world, Return true)
  /\ addRoute (VNum 3) (VFun 1) initial_world = (initial_world, Return false).
Proof.
  destruct addRoute_spec as (Hno & Hyes & _). split.
  - destruct (Hyes (VStr "/x") (VFun 1) initial_world eq_refl eq_refl)
      as (path & h & Hp & Hh & ->).
    + intros path [= <-]. reflexivity.
    + injection Hp as <-. injection Hh as <-. reflexivity.
  - apply Hno. left. discriminate.
Defined.

(** What [executeRoute] does, in one equation: the dispatch (a call of the
    handler without argument, or a line on the console), then the history
    entry when the fragment shown differs. *)
Lemma executeRoute_run (url : string) (w : World) :
  let path := resolved_path url w in
  let dispatch :=
    match allRoutes w !! path with
    | Some handler => Invoke handler []
    | None => ConsoleLog [VStr "No handler found for route:"; VStr path]
    end in
  executeRoute url w
  = if String.eqb (location_hash w) (with_marker path) then
      (set_trace (trace w ++ [dispatch]) w, Return tt)
    else
      (set_location_hash (hash_after_push (with_marker path))
         (set_trace ((trace w ++ [dispatch]) ++ [PushState (with_marker path)])
            (set_trace (trace w ++ [dispatch]) w)),
       Return tt).
Proof.
  unfold executeRoute, resolved_path, with_marker, strip_marker.
  unfold bind at 1. unfold read at 1.
  destruct (has_route _ w); simpl negb; cbv iota;
    unfold bind at 1; unfold read at 1;
    (destruct (allRoutes w !! _);
     unfold bind, read, emit, modify, when, pushState, bind, emit, modify;
     simpl; destruct (String.eqb (location_hash w) _); reflexivity).
Qed.

(** C7. For every url, [executeRoute] drops one leading fragment marker,
    takes ["/"] instead when the path left has no handler, calls the
    handler of the resulting path without argument, and after that pushes
    one history entry, for that path with its marker, exactly when it
    differs from the fragment shown.  With a handler for ["/"] and none for
    ["/does-not-exist"], [executeRoute("/does-not-exist")] calls the
    handler of ["/"] and the fragment shown becomes ["#/"]. *)
Theorem executeRoute_spec :
  (forall rest : string, strip_marker (String "#" rest) = rest)
  /\ (forall url : string, startsWith url "#" = false -> strip_marker url = url)
  /\ (forall (url : string) (w : World),
         (is_Some (allRoutes w !! strip_marker url) ->
          resolved_path url w = strip_marker url)
         /\ (allRoutes w !! strip_marker url = None ->
             resolved_path url w = "/"))
  /\ (forall path : string,
         startsWith path "#" = false -> with_marker path = String.append "#" path)
  /\ (forall (url : string) (w : World) (handler : fn),
         allRoutes w !! resolved_path url w = Some handler ->
         let path := resolved_path url w in
         let w' := (executeRoute url w).1 in
         (executeRoute url w).2 = Return tt
         /\ trace w'
            = trace w ++ Invoke handler [] ::
                (if String.eqb (location_hash w) (with_marker path) then []
                 else [PushState (with_marker path)])
         /\ location_hash w'
            = (if String.eqb (location_hash w) (with_marker path)
               then location_hash w
               else hash_after_push (with_marker path))
         /\ allRoutes w' = allRoutes w)
  /\ (forall (w : World) (handler : fn),
         allRoutes w !! "/" = Some handler ->
         allRoutes w !! "/does-not-exist" = None ->
         let w' := (executeRoute "/does-not-exist" w).1 in
         In (Invoke handler []) (trace w') /\ location_hash w' = "#/").
Proof.
  split; [apply strip_marker_marked |].
  split; [intros url H; unfold strip_marker; by rewrite H |].
  split.
  { intros url w. unfold resolved_path. split; intros H.
    - by rewrite (proj2 (has_route_true _ _) H).
    - by rewrite (proj2 (has_route_false _ _) H). }
  split; [intros path H; unfold with_marker; by rewrite H |].
  split.
  - intros url w handler Hh path w'. subst path w'.
    rewrite executeRoute_run, Hh.
    destruct (String.eqb (location_hash w) _); simpl; repeat split.
    by rewrite <- app_assoc.
  - intros w handler Hroot Hnone w'. subst w'. rewrite executeRoute_run.
    assert (resolved_path "/does-not-exist" w = "/") as ->.
    { unfold resolved_path.
      change (strip_marker "/does-not-exist") with "/does-not-exist".
      by rewrite (proj2 (has_route_false _ _) Hnone). }
    rewrite Hroot. change (with_marker "/") with "#/".
    destruct (String.eqb (location_hash w) "#/") eqn:E; simpl.
    + apply String.eqb_eq in E. split; [| exact E].
      apply in_app_iff. right. by left.
    + split; [| done]. rewrite !in_app_iff. left. right. by left.
Qed.

Lemma executeRoute_spec_witness :
  let w := set_allRoutes {[ "/" := 5 ]} initial_world in
  trace (executeRoute "#/active" w).1 = [Invoke 5 []; PushState "#/"]
  /\ location_hash (executeRoute "#/active" w).1 = "#/".
Proof.
  intros w.
  destruct executeRoute_spec as (_ & _ & _ & _ & H & _).
  destruct (H "#/active" w 5 eq_refl) as (_ & Ht & Hl & _).
  split; [rewrite Ht | rewrite Hl]; reflexivity.
Defined.

(** C8 as stated fails: with no route at all and no fragment shown,
    [executeRoute("/does-not-exist")] writes its line on the console and
    then pushes the history entry ["#/"]. *)
Lemma executeRoute_unrouted_pushes :
  allRoutes initial_world !! "/does-not-exist" = None
  /\ allRoutes initial_world !! "/" = None
  /\ trace (executeRoute "/does-not-exist" initial_world).1
     = [ConsoleLog [VStr "No handler found for route:"; VStr "/"];
        PushState "#/"]
  /\ location_hash (executeRoute "/does-not-exist" initial_world).1 = "#/".
Proof. repeat split. Qed.

(** C8, amended.  When neither the requested path nor ["/"] has a handler,
    [executeRoute] returns without throwing and calls no handler: it writes
    one line on the console, leaves the routes as they are, and then pushes
    the history entry ["#/"] exactly when the fragment shown is not
    ["#/"]. *)
Theorem executeRoute_unrouted (url : string) (w : World) :
  allRoutes w !! strip_marker url = None ->
  allRoutes w !! "/" = None ->
  let w' := (executeRoute url w).1 in
  (executeRoute url w).2 = Return tt
  /\ trace w'
     = trace w ++ ConsoleLog [VStr "No handler found for route:"; VStr "/"] ::
         (if String.eqb (location_hash w) "#/" then [] else [PushState "#/"])
  /\ (forall f args, ~ In (Invoke f args) (skipn (length (trace w)) (trace w')))
  /\ allRoutes w' = allRoutes w
  /\ location_hash w' = "#/".
Proof.
  intros Hurl Hroot w'. subst w'. rewrite executeRoute_run.
  assert (resolved_path url w = "/") as ->.
  { unfold resolved_path. by rewrite (proj2 (has_route_false _ _) Hurl). }
  rewrite Hroot. change (with_marker "/") with "#/".
  destruct (String.eqb (location_hash w) "#/") eqn:E; simpl;
    rewrite <- ?app_assoc; simpl; rewrite drop_app_length.
  - apply String.eqb_eq in E. repeat split; try done.
    intros f args [?|[]]; discriminate.
  - repeat split; try done.
    intros f args [?|[?|[]]]; discriminate.
Qed.

Lemma executeRoute_unrouted_witness :
  trace (executeRoute "#/x" initial_world).1
  = [ConsoleLog [VStr "No handler found for route:"; VStr "/"]; PushState "#/"].
Proof.
  destruct (executeRoute_unrouted "#/x" initial_world eq_refl eq_refl)
    as (_ & H & _).
  rewrite H. reflexivity.
Defined.

(** ** The element model *)

Lemma typeof_string (v : value) :
  String.eqb (typeof v) "string" = true <-> exists s, v = VStr s.
Proof.
  split; [| by intros [s ->]].
  destruct v; simpl; try discriminate. eauto.
Qed.

Lemma isArray_true (v : value) : isArray v = true <-> exists xs, v = VArr xs.
Proof.
  split; [| by intros [xs ->]].
  destruct v; simpl; try discriminate. eauto.
Qed.

Lemma instanceof_Object_truthy (v : value) :
  instanceof_Object v = true -> truthy v = true.
Proof. by destruct v. Qed.

(** The loop's test, read as a property of the member. *)
Lemma child_accepted_iff (child : value) :
  not_a_virtual_element child = false <-> child_accepted child.
Proof.
  unfold not_a_virtual_element, child_accepted, is_object. split.
  - intros H.
    destruct (String.eqb (typeof child) "object"); [| discriminate].
    destruct (is_null child); [discriminate |]. simpl in H.
    destruct (String.eqb (typeof (get_prop child "tag")) "string") eqn:Et;
      [| discriminate].
    simpl in H.
    destruct (instanceof_Object (get_prop child "attributes"));
      [| rewrite andb_false_r in H; discriminate].
    rewrite andb_true_r in H.
    destruct (truthy (get_prop child "attributes")); [| discriminate].
    destruct (truthy (get_prop child "children")); [| discriminate].
    simpl in H. apply negb_false_iff in H.
    repeat split; [by apply typeof_string | by apply isArray_true].
  - intros (Ho & Ht & Ha & [cs Hc]).
    apply andb_true_iff in Ho as [-> Hn]. apply negb_true_iff in Hn as ->.
    apply typeof_string in Ht as ->.
    rewrite Ha, (instanceof_Object_truthy _ Ha), Hc. reflexivity.
Qed.

Lemma refuse_child_throws (child : value) (w : World) :
  exists w' e, refuse_child child w = (w', Throw e).
Proof.
  unfold refuse_child, bind, emit, modify, throw.
  destruct (is_null child || is_undefined child); eauto.
Qed.

Lemma children_loop_accepts (children : list value) (w : World) :
  Forall child_accepted children ->
  forEach children (fun child =>
    if not_a_virtual_element child then refuse_child child else ret tt) w
  = (w, Return tt).
Proof.
  induction 1 as [|child rest Hc _ IH]; [reflexivity |].
  simpl. unfold bind. apply child_accepted_iff in Hc. rewrite Hc.
  unfold ret at 1. apply IH.
Qed.

Lemma children_loop_refuses (children : list value) (w : World) :
  ~ Forall child_accepted children ->
  exists w' e,
    forEach children (fun child =>
      if not_a_virtual_element child then refuse_child child else ret tt) w
    = (w', Throw e).
Proof.
  induction children as [|child rest IH]; intros Hbad.
  - destruct Hbad. constructor.
  - simpl. unfold bind.
    destruct (not_a_virtual_element child) eqn:Hc.
    + destruct (refuse_child_throws child w) as (w' & e & ->). eauto.
    + unfold ret at 1. apply IH. intros Hrest. apply Hbad.
      constructor; [by apply child_accepted_iff | exact Hrest].
Qed.

Lemma tag_test (tag : value) :
  negb (truthy tag) || negb (String.eqb (typeof tag) "string") = false
  <-> exists t, tag = VStr t /\ t <> "".
Proof.
  split.
  - destruct tag; simpl; try discriminate; try (by rewrite orb_true_r).
    destruct (String.eqb_spec s ""); simpl; [discriminate |].
    intros _. eauto.
  - intros (t & -> & Ht). simpl.
    destruct (String.eqb_spec t ""); [done | reflexivity].
Qed.

Lemma attributes_test (attributes : value) :
  negb (truthy attributes)
  || negb (String.eqb (typeof attributes) "object")
  || is_null attributes = false
  <-> is_object attributes = true.
Proof.
  unfold is_object.
  destruct attributes as [| |b|n|t|f|n|xs|ps]; try destruct b; simpl;
    rewrite ?orb_true_r; simpl; split; congruence.
Qed.

Lemma innerText_test (innerText : value) :
  truthy innerText && negb (String.eqb (typeof innerText) "string") = false
  <-> truthy innerText = false \/ exists text, innerText = VStr text.
Proof.
  split.
  - destruct innerText as [| |b|n|t|f|n|xs|ps]; simpl;
      rewrite ?andb_true_r, ?andb_false_r; eauto.
  - intros [-> | [text ->]]; [reflexivity |]. simpl. apply andb_false_r.
Qed.

Lemma children_test (children : value) :
  negb (truthy children) || negb (isArray children) = false
  <-> exists cs, children = VArr cs.
Proof.
  split.
  - destruct children as [| |b|n|t|f|n|xs|ps]; simpl;
      rewrite ?orb_true_r; try discriminate; eauto.
  - by intros [cs ->].
Qed.

Lemma createVirtualElement_accepts (tag attributes innerText children : value)
    (w : World) :
  arguments_accepted tag attributes innerText children ->
  Forall child_accepted (elements children) ->
  createVirtualElement tag attributes innerText children w
  = (w, Return (virtual_element tag attributes innerText children)).
Proof.
  intros (Ht & Ha & Hi & Hc) Hchildren. unfold createVirtualElement.
  rewrite (proj2 (tag_test tag) Ht), (proj2 (attributes_test attributes) Ha),
    (proj2 (innerText_test innerText) Hi), (proj2 (children_test children) Hc).
  unfold bind. by rewrite children_loop_accepts.
Qed.

Lemma createVirtualElement_refuses (tag attributes innerText children : value)
    (w : World) :
  ~ (arguments_accepted tag attributes innerText children
     /\ Forall child_accepted (elements children)) ->
  exists w' e,
    createVirtualElement tag attributes innerText children w = (w', Throw e).
Proof.
  intros Hbad. unfold createVirtualElement.
  destruct (negb (truthy tag) || _) eqn:Ht; [unfold throw; eauto |].
  destruct (negb (truthy attributes) || _ || _) eqn:Ha; [unfold throw; eauto |].
  destruct (truthy innerText && _) eqn:Hi; [unfold throw; eauto |].
  destruct (negb (truthy children) || _) eqn:Hc; [unfold throw; eauto |].
  apply tag_test in Ht. apply attributes_test in Ha.
  apply innerText_test in Hi. apply children_test in Hc.
  unfold bind.
  destruct (children_loop_refuses (elements children) w) as (w' & e & ->);
    [| eauto].
  intros Hall. apply Hbad. by repeat split.
Qed.

Lemma get_prop_virtual_element (tag attributes innerText children : value) :
  let v := virtual_element tag attributes innerText children in
  get_prop v "tag" = tag /\ get_prop v "attributes" = attributes
  /\ get_prop v "innerText" = innerText /\ get_prop v "children" = children
  /\ get_prop v "id" = VUndefined.
Proof. repeat split. Qed.

Lemma well_formed_child_accepted (child : value) :
  well_formed child -> child_accepted child.
Proof.
  intros H. inversion H as [props tag attrs children Ht ? Ha ? Hc ?]; subst.
  repeat split; eauto. by rewrite Ha.
Qed.

Lemma well_formed_accepted (tag attributes innerText children : value) :
  well_formed (virtual_element tag attributes innerText children) ->
  arguments_accepted tag attributes innerText children
  /\ Forall child_accepted (elements children).
Proof.
  intros H. inversion H as [props t attrs cs Ht Hne Ha Hi Hc Hcs]; subst.
  destruct (get_prop_virtual_element tag attributes innerText children)
    as (E1 & E2 & E3 & E4 & _).
  unfold virtual_element in *.
  rewrite E1 in Ht. rewrite E2 in Ha. rewrite E3 in Hi. rewrite E4 in Hc.
  subst. split.
  - repeat split; eauto.
    destruct Hi as [-> | [text ->]]; eauto.
  - simpl. eapply Forall_impl; [exact Hcs |].
    intros child. apply well_formed_child_accepted.
Qed.

(** C3 as stated fails: a grandchild whose tag is the number 5 breaks the
    invariant of the tree, and construction succeeds all the same. *)
Lemma createVirtualElement_ignores_grandchildren :
  let grandchild :=
    VObj [("tag", VNum 5); ("attributes", VObj []); ("children", VArr [])] in
  let child :=
    VObj [("tag", VStr "p"); ("attributes", VObj []);
          ("children", VArr [grandchild])] in
  ~ well_formed (virtual_element (VStr "div") (VObj []) VUndefined (VArr [child]))
  /\ createVirtualElement (VStr "div") (VObj []) VUndefined (VArr [child])
       initial_world
     = (initial_world,
        Return (virtual_element (VStr "div") (VObj []) VUndefined (VArr [child]))).
Proof.
  intros grandchild child. split; [| reflexivity].
  intros H. inversion H as [? ? ? cs ? ? ? ? Hc Hcs]; subst.
  injection Hc as <-. inversion Hcs as [| ? ? Hchild ?]; subst.
  inversion Hchild as [? ? ? gcs ? ? ? ? Hgc Hgcs]; subst.
  injection Hgc as <-. inversion Hgcs as [| ? ? Hg ?]; subst.
  inversion Hg as [? t ? ? Ht ? ? ? ? ?]; subst. discriminate Ht.
Qed.

(** C3, amended.  [createVirtualElement] succeeds, returning the node and
    leaving everything else as it was, for every tree in which each node has
    a non-empty string tag, an object as attributes, a text that is absent
    or a string, and an array of children.  It throws exactly when one of
    its own arguments is refused (tag not a non-empty string, attributes
    not an object, text truthy and not a string, children not an array) or
    a member of [children] is not an object with a string tag, an object
    as attributes and an array as children.  The members are checked one
    level deep: what lies below them is not looked at. *)
Theorem createVirtualElement_spec (tag attributes innerText children : value)
    (w : World) :
  (well_formed (virtual_element tag attributes innerText children) ->
   createVirtualElement tag attributes innerText children w
   = (w, Return (virtual_element tag attributes innerText children)))
  /\ (arguments_accepted tag attributes innerText children ->
      Forall child_accepted (elements children) ->
      createVirtualElement tag attributes innerText children w
      = (w, Return (virtual_element tag attributes innerText children)))
  /\ (~ (arguments_accepted tag attributes innerText children
         /\ Forall child_accepted (elements children)) ->
      exists w' e,
        createVirtualElement tag attributes innerText children w
        = (w', Throw e)).
Proof.
  split; [| split].
  - intros H. apply well_formed_accepted in H as [Hargs Hchildren].
    by apply createVirtualElement_accepts.
  - apply createVirtualElement_accepts.
  - apply createVirtualElement_refuses.
Qed.

Lemma createVirtualElement_spec_witness :
  createVirtualElement (VStr "ul") (VObj [("class", VStr "todo-list")])
    (VStr "") (VArr [virtual_element (VStr "li") (VObj []) (VStr "milk") (VArr [])])
    initial_world
  = (initial_world,
     Return (virtual_element (VStr "ul") (VObj [("class", VStr "todo-list")])
               (VStr "")
               (VArr [virtual_element (VStr "li") (VObj []) (VStr "milk")
                        (VArr [])])))
  /\ exists w' e,
       createVirtualElement (VStr "ul") (VObj []) VUndefined (VArr [VNum 3])
         initial_world
       = (w', Throw e).
Proof.
  split.
  - apply (proj1 (proj2 (createVirtualElement_spec _ _ _ _ initial_world))).
    + repeat split; eauto; discriminate.
    + repeat constructor; simpl; eauto.
  - apply (proj2 (proj2 (createVirtualElement_spec _ _ _ _ initial_world))).
    intros [_ H]. inversion H as [| ? ? [Hobj ?] ?]; subst. discriminate Hobj.
Defined.

(** ** The renderer *)

Lemma above_refl (b : node) (w : World) : above b w w.
Proof. repeat split; auto. Qed.

Lemma above_trans (b : node) (w1 w2 w3 : World) :
  above b w1 w2 -> above b w2 w3 -> above b w1 w3.
Proof.
  intros (N1 & D1 & F1 & T1 & S1 & R1 & L1) (N2 & D2 & F2 & T2 & S2 & R2 & L2).
  repeat split; try congruence; [lia | |].
  - intros n Hn. by rewrite D2, D1.
  - intros n Hn. destruct (F2 n Hn) as [H | H]; auto.
Qed.

Lemma above_next (b : node) (w w' : World) :
  above b w w' -> b <= next_node w -> b <= next_node w'.
Proof. intros (N & _) Hb. lia. Qed.

Lemma materializes_ret {A} (b : node) (a : A) (Q : A -> Prop) :
  Q a -> materializes b (ret a) Q.
Proof.
  intros Ha w _. split; [apply above_refl |]. by intros a' [= <-].
Qed.

Lemma materializes_throw {A} (b : node) (e : error) (Q : A -> Prop) :
  materializes b (throw e) Q.
Proof. intros w _. split; [apply above_refl | discriminate]. Qed.

Lemma materializes_bind {A B} (b : node) (m : M A) (k : A -> M B)
    (P : A -> Prop) (Q : B -> Prop) :
  materializes b m P ->
  (forall a, P a -> materializes b (k a) Q) ->
  materializes b (bind m k) Q.
Proof.
  intros Hm Hk w Hb. unfold bind.
  destruct (Hm w Hb) as [Habove Hret].
  destruct (m w) as [w1 [a | e |]]; simpl in *; [| by split ..].
  destruct (Hk a (Hret a eq_refl) w1 (above_next _ _ _ Habove Hb)) as [H1 H2].
  split; [by eapply above_trans | exact H2].
Qed.

Lemma materializes_weaken {A} (b : node) (m : M A) (P Q : A -> Prop) :
  materializes b m P -> (forall a, P a -> Q a) -> materializes b m Q.
Proof.
  intros Hm HPQ w Hb. destruct (Hm w Hb) as [H1 H2]. split; [done |].
  intros a Ha. by apply HPQ, H2.
Qed.

Lemma materializes_forEach {A} (b : node) (xs : list A) (body : A -> M unit) :
  (forall x, In x xs -> materializes b (body x) (fun _ => True)) ->
  materializes b (forEach xs body) (fun _ => True).
Proof.
  induction xs as [|x rest IH]; intros Hbody; simpl.
  - by apply materializes_ret.
  - eapply materializes_bind; [apply Hbody; by left |].
    intros _ _. apply IH. intros y Hy. apply Hbody. by right.
Qed.

Lemma materializes_when (b : node) (c : bool) (m : M unit) :
  materializes b m (fun _ => True) ->
  materializes b (when c m) (fun _ => True).
Proof. destruct c; [done | intros _; by apply materializes_ret]. Qed.

Lemma children_of_appendChild (parent c : node) (w : World) :
  children_of parent (appendChild parent c w).1
  = (fun cs => cs ++ [Child c]) <$> children_of parent w.
Proof.
  unfold children_of; simpl. rewrite lookup_alter_eq.
  by destruct (document w !! parent).
Qed.

Lemma children_of_above (b n : node) (w w' : World) :
  above b w w' -> n < b -> children_of n w' = children_of n w.
Proof. intros (_ & Hdoc & _) Hn. unfold children_of. by rewrite Hdoc. Qed.

Lemma Map_set_nodes (key : value) (el n : node) (m : list (value * node)) :
  In n (Map_set key el m).*2 -> In n m.*2 \/ n = el.
Proof.
  induction m as [|[k old] rest IH]; simpl.
  - intros [<- | []]. by right.
  - destruct (same_key k key); simpl.
    + intros [<- | H]; auto.
    + intros [<- | H]; auto. destruct (IH H); auto.
Qed.

Lemma materializes_on_node (b el : node) (f : Element -> Element) :
  b <= el -> materializes b (on_node el f) (fun _ => True).
Proof.
  intros Hel w Hb. split; [| done]. repeat split; simpl; auto.
  intros n Hn. apply lookup_alter_ne. lia.
Qed.

Lemma materializes_register_forward (b el : node) (key : value) :
  b <= el ->
  materializes b
    (modify (fun w =>
       set_virtualToDomMap (Map_set key el (virtualToDomMap w)) w))
    (fun _ => True).
Proof.
  intros Hel w Hb. split; [| done]. repeat split; simpl; auto.
  intros n Hn. apply Map_set_nodes in Hn as [H | ->]; auto.
Qed.

Lemma materializes_register_reverse (b el : node) (elem : value) :
  materializes b
    (modify (fun w =>
       set_domToVirtualMap (<[el := elem]> (domToVirtualMap w)) w))
    (fun _ => True).
Proof. intros w Hb. split; [| done]. repeat split; simpl; auto. Qed.

(** Nesting: what an object or an array holds is nested less deeply. *)
Lemma depth_in_list (xs : list value) (x : value) :
  In x xs -> depth x <= list_max (map depth xs).
Proof.
  induction xs as [|y rest IH]; simpl; [done |].
  intros [-> | H]; [lia |]. specialize (IH H). lia.
Qed.

Lemma depth_in_props (ps : list (string * value)) (k : string) (x : value) :
  In (k, x) ps -> depth x <= list_max (map (fun p => depth p.2) ps).
Proof.
  induction ps as [|p rest IH]; simpl; [done |].
  intros [-> | H]; [simpl; lia |]. specialize (IH H). lia.
Qed.

Lemma index_entries_in (elems : list value) (n : nat) (k : string) (x : value) :
  In (k, x) (index_entries n elems) -> In x elems.
Proof.
  revert n. induction elems as [|y rest IH]; intros n; simpl; [done |].
  intros [[= _ ->] | H]; [by left | right; by eapply IH].
Qed.

Lemma first_bindings_in (seen : list string) (props : list (string * value))
    (p : string * value) :
  In p (first_bindings seen props) -> In p props.
Proof.
  revert seen. induction props as [|[k v] rest IH]; intros seen; simpl;
    [done |].
  destruct (bool_decide (k ∈ seen)); simpl; [by eauto |].
  intros [<- | H]; [by left | right; by eapply IH].
Qed.

Lemma depth_own_props (v : value) (k : string) (x : value) :
  own_props v !! k = Some x -> depth x < depth v.
Proof.
  unfold own_props. intros H. apply elem_of_list_to_map_2 in H.
  apply list_elem_of_In in H. destruct v; simpl in *; try done.
  - apply index_entries_in, depth_in_list in H. lia.
  - apply first_bindings_in, depth_in_props in H. simpl in H. lia.
Qed.

Lemma depth_get_prop (v : value) (k : string) (xs : list value) (x : value) :
  get_prop v k = VArr xs -> In x xs -> S (depth x) < depth v.
Proof.
  unfold get_prop. intros H Hx.
  destruct (own_props v !! k) as [y|] eqn:Hy; [| discriminate]. subst y.
  apply depth_own_props in Hy. apply depth_in_list in Hx. simpl in Hy. lia.
Qed.

(** Two statements that agree agree in context. *)
Lemma bind_ext {A B} (m : M A) (k1 k2 : A -> M B) (w : World) :
  (forall a w', k1 a w' = k2 a w') -> bind m k1 w = bind m k2 w.
Proof. intros H. unfold bind. destruct (m w) as [w' [a | e |]]; auto. Qed.

Lemma bind_ext_l {A B} (m1 m2 : M A) (k : A -> M B) (w : World) :
  m1 w = m2 w -> bind m1 k w = bind m2 k w.
Proof. intros H. unfold bind. by rewrite H. Qed.

Lemma forEach_ext {A} (xs : list A) (f g : A -> M unit) :
  (forall x, In x xs -> forall w, f x w = g x w) ->
  forall w, forEach xs f w = forEach xs g w.
Proof.
  induction xs as [|x rest IH]; intros H w; simpl; [done |].
  unfold bind. rewrite (H x) by (by left).
  destruct (g x w) as [w' [[] | e |]]; try done.
  apply IH. intros y Hy. apply H. by right.
Qed.

Lemma terminates_ret {A} (a : A) : terminates (ret a).
Proof. intros w. discriminate. Qed.

Lemma terminates_throw {A} (e : error) : terminates (@throw A e).
Proof. intros w. discriminate. Qed.

Lemma terminates_modify (f : World -> World) : terminates (modify f).
Proof. intros w. discriminate. Qed.

Lemma terminates_bind {A B} (m : M A) (k : A -> M B) :
  terminates m -> (forall a, terminates (k a)) -> terminates (bind m k).
Proof.
  intros Hm Hk w. unfold bind. specialize (Hm w).
  destruct (m w) as [w' [a | e |]]; simpl in *; [apply Hk | discriminate | done].
Qed.

Lemma terminates_forEach {A} (xs : list A) (body : A -> M unit) :
  (forall x, In x xs -> terminates (body x)) -> terminates (forEach xs body).
Proof.
  induction xs as [|x rest IH]; intros H; simpl; [apply terminates_ret |].
  apply terminates_bind; [apply H; by left |].
  intros _. apply IH. intros y Hy. apply H. by right.
Qed.

Section Renderer.

Variable createElement_accepts : value -> bool.
Variable setAttribute_accepts : string -> bool.

Local Abbreviation createElement' := (createElement createElement_accepts).
Local Abbreviation setAttribute' := (setAttribute setAttribute_accepts).
Local Abbreviation plainAttribute' := (plainAttribute setAttribute_accepts).
Local Abbreviation applyAttribute' := (applyAttribute setAttribute_accepts).
Local Abbreviation elementToHtmlElement_fuel' :=
  (elementToHtmlElement_fuel createElement_accepts setAttribute_accepts).
Local Abbreviation elementToHtmlElement' :=
  (elementToHtmlElement createElement_accepts setAttribute_accepts).
Local Abbreviation updateDom' :=
  (updateDom createElement_accepts setAttribute_accepts).

(** A created node is new: it is the next node of the world it is created
    in. *)
Lemma materializes_createElement (b : node) (tag : value) :
  materializes b (createElement' tag) (fun n => b <= n).
Proof.
  unfold createElement.
  destruct (createElement_accepts tag); [| apply materializes_throw].
  intros w Hb. simpl. split.
  - repeat split; simpl; auto.
    intros n Hn. apply lookup_insert_ne. lia.
  - intros a [= <-]. exact Hb.
Qed.

Lemma materializes_apply_op (b el : node) (op : dom_op) :
  b <= el -> materializes b (apply_op el op) (fun _ => True).
Proof. apply materializes_on_node. Qed.

Lemma materializes_setAttribute (b el : node) (name : string) (v : value) :
  b <= el -> materializes b (setAttribute' el name v) (fun _ => True).
Proof.
  intros Hel. unfold setAttribute.
  destruct (setAttribute_accepts name);
    [by apply materializes_apply_op | apply materializes_throw].
Qed.

Lemma materializes_plainAttribute (b el : node) (name : string) (v : value) :
  b <= el -> materializes b (plainAttribute' el name v) (fun _ => True).
Proof.
  intros Hel. unfold plainAttribute.
  destruct (String.eqb name "checked").
  - destruct (truthy v);
      (eapply materializes_bind; [by apply materializes_apply_op |]);
      intros _ _;
      [by apply materializes_setAttribute | by apply materializes_apply_op].
  - destruct (negb (is_null v) && negb (is_undefined v));
      [by apply materializes_setAttribute | by apply materializes_ret].
Qed.

Lemma materializes_applyAttribute (b el : node) (attr : string * value) :
  b <= el -> materializes b (applyAttribute' el attr) (fun _ => True).
Proof.
  intros Hel. destruct attr as [name v]. unfold applyAttribute.
  destruct v; try by apply materializes_plainAttribute.
  destruct (startsWith name "on");
    [by apply materializes_apply_op | by apply materializes_plainAttribute].
Qed.

(** Materializing an element creates nodes and touches only the nodes it
    creates; the node it returns is one of them. *)
Lemma materializes_elementToHtmlElement_fuel (b : node) (fuel : nat)
    (elem : value) :
  materializes b (elementToHtmlElement_fuel' fuel elem) (fun n => b <= n).
Proof.
  revert elem. induction fuel as [|fuel IH]; intros elem; simpl.
  - intros w Hb. split; [apply above_refl | discriminate].
  - destruct (negb (String.eqb (typeof elem) "object"));
      [apply materializes_throw |].
    destruct (is_null elem); [apply materializes_throw |].
    eapply materializes_bind; [apply materializes_createElement |].
    intros el Hel.
    eapply materializes_bind; [by apply materializes_register_forward |].
    intros _ _.
    eapply materializes_bind; [apply materializes_register_reverse |].
    intros _ _.
    eapply materializes_bind;
      [by apply materializes_when, materializes_on_node |].
    intros _ _.
    eapply materializes_bind with (P := fun _ => True).
    { destruct (not_a_plain_object _);
        [apply materializes_throw | by apply materializes_ret]. }
    intros _ _.
    eapply materializes_bind.
    { apply materializes_forEach. intros attr _.
      by apply materializes_applyAttribute. }
    intros _ _.
    eapply materializes_bind with (P := fun _ => True);
      [| intros _ _; by apply materializes_ret].
    destruct (get_prop elem "children"); try apply materializes_throw.
    apply materializes_forEach. intros child _.
    eapply materializes_bind; [apply IH |].
    intros c _. by apply materializes_on_node.
Qed.

Lemma materializes_elementToHtmlElement (b : node) (elem : value) :
  materializes b (elementToHtmlElement' elem) (fun n => b <= n).
Proof. apply materializes_elementToHtmlElement_fuel. Qed.

Lemma terminates_createElement (tag : value) : terminates (createElement' tag).
Proof.
  unfold createElement. intros w.
  destruct (createElement_accepts tag); discriminate.
Qed.

Lemma terminates_applyAttribute (el : node) (attr : string * value) :
  terminates (applyAttribute' el attr).
Proof.
  destruct attr as [name v]. intros w.
  unfold applyAttribute, plainAttribute, setAttribute, apply_op, on_node,
    bind, modify, ret, throw.
  destruct v; try destruct (startsWith name "on");
    destruct (String.eqb name "checked"); simpl;
    repeat (match goal with |- context [if ?c then _ else _] => destruct c end;
            simpl);
    discriminate.
Qed.

(** With more fuel than the element is deep, materialization is never cut
    short. *)
Lemma terminates_elementToHtmlElement_fuel (fuel : nat) (elem : value) :
  depth elem < fuel -> terminates (elementToHtmlElement_fuel' fuel elem).
Proof.
  revert elem. induction fuel as [|fuel IH]; intros elem Hd; [lia |]. simpl.
  destruct (negb (String.eqb (typeof elem) "object"));
    [apply terminates_throw |].
  destruct (is_null elem); [apply terminates_throw |].
  apply terminates_bind; [apply terminates_createElement |]. intros el.
  apply terminates_bind; [apply terminates_modify |]. intros _.
  apply terminates_bind; [apply terminates_modify |]. intros _.
  apply terminates_bind.
  { unfold when. destruct (truthy _);
      [apply terminates_modify | apply terminates_ret]. }
  intros _. apply terminates_bind.
  { destruct (not_a_plain_object _);
      [apply terminates_throw | apply terminates_ret]. }
  intros _. apply terminates_bind.
  { apply terminates_forEach. intros attr _. apply terminates_applyAttribute. }
  intros _. apply terminates_bind; [| intros _; apply terminates_ret].
  destruct (get_prop elem "children") eqn:Hc; try apply terminates_throw.
  apply terminates_forEach. intros child Hin.
  apply terminates_bind; [| intros c; apply terminates_modify].
  apply IH. pose proof (depth_get_prop _ _ _ _ Hc Hin). lia.
Qed.

(** And the fuel given beyond that makes no difference. *)
Lemma elementToHtmlElement_fuel_irrelevant (f1 f2 : nat) (elem : value)
    (w : World) :
  depth elem < f1 -> depth elem < f2 ->
  elementToHtmlElement_fuel' f1 elem w = elementToHtmlElement_fuel' f2 elem w.
Proof.
  revert f2 elem w. induction f1 as [|f1 IH]; intros f2 elem w H1 H2; [lia |].
  destruct f2 as [|f2]; [lia |]. simpl.
  destruct (negb (String.eqb (typeof elem) "object")); [done |].
  destruct (is_null elem); [done |].
  apply bind_ext. intros el w1.
  do 5 (apply bind_ext; intros _ ?).
  apply bind_ext_l.
  destruct (get_prop elem "children") eqn:Hc; try done.
  apply forEach_ext. intros child Hin wc. apply bind_ext_l.
  pose proof (depth_get_prop _ _ _ _ Hc Hin). apply IH; lia.
Qed.

(** [elementToHtmlElement] is total: it returns or throws, and the bounded
    recursion computes it as soon as the bound exceeds the nesting of the
    element. *)
Lemma elementToHtmlElement_fuel_enough (fuel : nat) (elem : value) (w : World) :
  depth elem < fuel ->
  elementToHtmlElement_fuel' fuel elem w = elementToHtmlElement' elem w
  /\ (elementToHtmlElement' elem w).2 <> NoFuel.
Proof.
  intros H. split.
  - apply elementToHtmlElement_fuel_irrelevant; lia.
  - apply terminates_elementToHtmlElement_fuel. lia.
Qed.


(** The first loop of [updateDom] changes nothing. *)
Lemma validation_loop (els : list value) (w : World) :
  forEach els (fun element =>
    if negb (String.eqb (typeof element) "object") then
      throw (Error "Error: element is not an object")
    else ret tt) w
  = (w, if forallb (fun element => String.eqb (typeof element) "object") els
        then Return tt
        else Throw (Error "Error: element is not an object")).
Proof.
  induction els as [|element rest IH]; simpl; [done |].
  unfold bind. destruct (String.eqb (typeof element) "object"); simpl; [| done].
  unfold ret at 1. apply IH.
Qed.

(** [updateDom] in three cases: an argument that is not an array, an
    element that is not an object, and the pass proper, which appends the
    materialized elements to the emptied container. *)
Lemma updateDom_run (topElement : node) (attachElements : value) (w : World) :
  updateDom' topElement attachElements w
  = if negb (isArray attachElements) then
      (w, Throw (Error "Error: attachElements is not an array"))
    else if negb (elements_are_objects attachElements) then
      (w, Throw (Error "Error: element is not an object"))
    else
      forEach (elements attachElements) (fun element =>
        let* c := elementToHtmlElement' element in
        appendChild topElement c)
        (prepared topElement attachElements w).
Proof.
  unfold updateDom.
  destruct attachElements as [| |b|n|t|f|n|xs|ps]; simpl; try done;
    try (by destruct b); try (by destruct (n =? 0)%Z);
    try (by destruct (String.eqb t "")).
  unfold bind at 1. rewrite validation_loop.
  unfold elements_are_objects; simpl.
  destruct (forallb _ xs); simpl; [| done].
  unfold bind at 1; unfold modify at 1.
  unfold bind at 1; unfold globalStorage_setState at 1; simpl.
  unfold bind at 1; unfold clear_innerHTML, on_node, modify at 1.
  unfold prepared; simpl. rewrite app_nil_r. by destruct w.
Qed.

(** The second loop of [updateDom]: the container receives the nodes of the
    elements in order, all of them new, until an element fails. *)
Lemma append_loop (topElement b : node) (els : list value) (w w' : World)
    (before : list node) (o : outcome unit) :
  topElement < b -> b <= next_node w ->
  children_of topElement w = Some (Child <$> before) ->
  forEach els (fun element =>
    let* c := elementToHtmlElement' element in
    appendChild topElement c) w = (w', o) ->
  exists nodes,
    children_of topElement w' = Some (Child <$> (before ++ nodes))
    /\ Forall (fun n => b <= n) nodes
    /\ match o with
       | Return _ => length nodes = length els
       | Throw _ => length nodes < length els
       | NoFuel => False
       end.
Proof.
  revert w w' o before. induction els as [|element rest IH];
    intros w w' o before Htop Hb Hchildren Hrun; simpl in Hrun.
  - injection Hrun as <- <-. exists []. rewrite app_nil_r. by repeat split.
  - unfold bind at 1 in Hrun. unfold bind at 1 in Hrun.
    destruct (materializes_elementToHtmlElement b element w Hb)
      as [Habove Hnew].
    pose proof (terminates_elementToHtmlElement_fuel (S (depth element))
                  element (Nat.lt_succ_diag_r _) w) as Hterm.
    fold (elementToHtmlElement' element) in Hterm.
    destruct (elementToHtmlElement' element w) as [w1 [c | e |]];
      simpl in *; [| | done].
    + specialize (Hnew c eq_refl).
      set (w2 := (appendChild topElement c w1).1) in *.
      assert (children_of topElement w2 = Some (Child <$> (before ++ [c])))
        as Hchildren2.
      { unfold w2. rewrite children_of_appendChild.
        rewrite (children_of_above _ _ _ _ Habove Htop), Hchildren.
        simpl. by rewrite fmap_app. }
      destruct Habove as (Hnext & _).
      destruct (IH w2 w' o (before ++ [c]) Htop) as (nodes & H1 & H2 & H3);
        [simpl; lia | done | exact Hrun |].
      exists (c :: nodes). rewrite <- app_assoc in H1. split; [exact H1 |].
      split; [by constructor |].
      destruct o as [[] | e |]; simpl in *; lia.
    + injection Hrun as <- <-. exists []. rewrite app_nil_r.
      rewrite (children_of_above _ _ _ _ Habove Htop).
      split; [done | split; [constructor | simpl; lia]].
Qed.

Lemma append_loop_table (topElement b : node) (els : list value)
    (w w' : World) (o : outcome unit) :
  b <= next_node w ->
  forEach els (fun element =>
    let* c := elementToHtmlElement' element in
    appendChild topElement c) w = (w', o) ->
  next_node w <= next_node w'
  /\ forall n, In n (virtualToDomMap w').*2 ->
               In n (virtualToDomMap w).*2 \/ b <= n.
Proof.
  revert w w' o. induction els as [|element rest IH];
    intros w w' o Hb Hrun; simpl in Hrun.
  - injection Hrun as <- <-. auto.
  - unfold bind at 1 in Hrun. unfold bind at 1 in Hrun.
    destruct (materializes_elementToHtmlElement b element w Hb)
      as [(Hnext & _ & Htable & _) _].
    destruct (elementToHtmlElement' element w) as [w1 [c | e |]];
      simpl in *; try (injection Hrun as <- <-; by auto).
    apply IH in Hrun as [Hnext' Htable']; [| simpl; lia].
    simpl in *. split; [lia |].
    intros n Hn. destruct (Htable' n Hn) as [H | H]; auto.
Qed.

(** The part of the bookkeeping invariant that holds: after a pass whose
    arguments are accepted, whether it completes or throws, every node in
    the forward table was created by this pass; no entry of an earlier
    pass is left. *)
Lemma updateDom_forward_table_fresh (topElement : node)
    (attachElements : value) (w : World) (key : value) (n : node) :
  isArray attachElements = true ->
  elements_are_objects attachElements = true ->
  In (key, n) (virtualToDomMap (updateDom' topElement attachElements w).1) ->
  next_node w <= n.
Proof.
  intros Harr Hobj. rewrite updateDom_run, Harr, Hobj. simpl. intros Hin.
  destruct (forEach _ _ (prepared topElement attachElements w))
    as [w' o] eqn:Hrun.
  apply (append_loop_table topElement (next_node w)) in Hrun as [_ Htable];
    [| simpl; lia].
  destruct (Htable n) as [[] | H]; [| exact H].
  simpl in Hin. apply in_map_iff. by exists (key, n).
Qed.

Lemma materializes_append_loop (topElement : node) (els : list value) :
  materializes 0
    (forEach els (fun element =>
       let* c := elementToHtmlElement' element in
       appendChild topElement c))
    (fun _ => True).
Proof.
  apply materializes_forEach. intros element _.
  eapply materializes_bind; [apply materializes_elementToHtmlElement |].
  intros c _. apply materializes_on_node. lia.
Qed.

(** C2. In every call of [updateDom] the tree and the container are written
    to the store by [setState(_, false)], a call that invokes nothing; the
    whole pass calls no listener and no update callback (the trace is as
    it was before the pass), and leaves the listeners and the update
    callback of the store as they were, so a pass does not start another
    one through the store.  After a pass whose arguments are accepted the
    store holds the tree under [vDOM] and the container under
    [topElement]. *)
Theorem updateDom_silent (topElement : node) (attachElements : value)
    (w : World) :
  (forall (newVal : value) (s : State),
      (setState newVal (VBool false) s).1.2 = [])
  /\ (let w' := (updateDom' topElement attachElements w).1 in
      trace w' = trace w
      /\ listeners (globalStorage w') = listeners (globalStorage w)
      /\ updateCallback (globalStorage w') = updateCallback (globalStorage w))
  /\ (isArray attachElements = true ->
      elements_are_objects attachElements = true ->
      let w' := (updateDom' topElement attachElements w).1 in
      getState (globalStorage w') !! "vDOM" = Some attachElements
      /\ getState (globalStorage w') !! "topElement" = Some (VNode topElement)).
Proof.
  split; [| split].
  - intros newVal s. unfold setState.
    by destruct (negb (String.eqb (typeof newVal) "object") || is_null newVal).
  - rewrite updateDom_run.
    destruct (negb (isArray attachElements)); [done |].
    destruct (negb (elements_are_objects attachElements)); [done |].
    destruct (materializes_append_loop topElement (elements attachElements)
                (prepared topElement attachElements w) (Nat.le_0_l _))
      as [(_ & _ & _ & Ht & Hs & _) _].
    cbv zeta. rewrite Ht, Hs. by repeat split.
  - intros Harr Hobj. rewrite updateDom_run, Harr, Hobj. simpl.
    destruct (materializes_append_loop topElement (elements attachElements)
                (prepared topElement attachElements w) (Nat.le_0_l _))
      as [(_ & _ & _ & _ & Hs & _) _].
    unfold getState. rewrite Hs. simpl. by rewrite !spread_lookup.
Qed.


End Renderer.

Lemma updateDom_silent_witness :
  let tree := VArr [virtual_element (VStr "div") (VObj []) (VStr "hi") (VArr [])] in
  let w := set_globalStorage
             (setUpdateCallback 7 (new_State (VArr [VFun 1])))
             initial_world in
  let w' := (updateDom any_tag any_attribute 0 tree w).1 in
  trace w' = []
  /\ getState (globalStorage w') !! "vDOM" = Some tree
  /\ getState (globalStorage w') !! "topElement" = Some (VNode 0).
Proof.
  intros tree w w'.
  destruct (updateDom_silent any_tag any_attribute 0 tree w)
    as (_ & (Ht & _) & Hs).
  split; [exact Ht | exact (Hs eq_refl eq_refl)].
Defined.



(** C9 fails on the code.  Two elements built by [createVirtualElement]
    are rendered; each gets its node and the reverse table knows both, but
    the forward table is keyed by [elem.id], which no element built by
    [createVirtualElement] has: it ends with the single key [undefined],
    bound to the node of the element materialized last. *)
Theorem updateDom_forward_table_collapses :
  let div := virtual_element (VStr "div") (VObj []) (VStr "") (VArr []) in
  let p := virtual_element (VStr "p") (VObj []) (VStr "") (VArr []) in
  let r := updateDom any_tag any_attribute 0 (VArr [div; p]) initial_world in
  createVirtualElement (VStr "div") (VObj []) (VStr "") (VArr []) initial_world
  = (initial_world, Return div)
  /\ createVirtualElement (VStr "p") (VObj []) (VStr "") (VArr []) initial_world
     = (initial_world, Return p)
  /\ r.2 = Return tt
  /\ children_of 0 r.1 = Some [Child 1; Child 2]
  /\ domToVirtualMap r.1 !! 1 = Some div
  /\ domToVirtualMap r.1 !! 2 = Some p
  /\ get_prop div "id" = VUndefined
  /\ virtualToDomMap r.1 = [(VUndefined, 2)]
  /\ Map_get (get_prop div "id") (virtualToDomMap r.1) = Some 2.
Proof. repeat split. Qed.

Lemma setState_array_witness :
  getState (setState (VArr [VStr "x"; VStr "y"]) VUndefined
              (new_State VUndefined)).1.1 !! "1"
  = Some (VStr "y").
Proof.
  pose proof (proj1 (setState_array (new_State VUndefined)
                       [VStr "x"; VStr "y"] VUndefined)) as H.
  unfold setState in H. simpl in H.
  destruct H as (_ & H & _). exact (H 1 (VStr "y") eq_refl).
Defined.

(** * Further properties of the code *)

(** ** The class [State] *)

Lemma push_listeners_functions (fs : list fn) (rest : list value)
    (pushed : list fn) :
  push_listeners ((VFun <$> fs) ++ rest) pushed
  = push_listeners rest (pushed ++ fs).
Proof.
  revert pushed. induction fs as [|f fs IH]; intros pushed; simpl.
  - by rewrite app_nil_r.
  - rewrite IH. by rewrite <- app_assoc.
Qed.

Lemma new_State_functions (fs : list fn) (rest : list value) :
  listeners (new_State (VArr ((VFun <$> fs) ++ rest)))
  = push_listeners rest fs.
Proof.
  simpl. destruct ((VFun <$> fs) ++ rest) as [|x xs] eqn:E.
  - destruct fs; [| discriminate]. simpl in E. by subst rest.
  - replace (Nat.ltb 0 (length (x :: xs))) with true by done.
    rewrite <- E. by rewrite push_listeners_functions.
Qed.

(** X1. [new State(listeners)] registers the functions at the head of the
    array, in order: all of them when every member is a function, and those
    before the first member that is not one otherwise (the [return false]
    of the constructor ends the loop, not the construction).  Without an
    array there is no listener.  The new store is empty and has no update
    callback. *)
Theorem new_State_listeners :
  (forall fs : list fn, listeners (new_State (VArr (VFun <$> fs))) = fs)
  /\ (forall (fs : list fn) (v : value) (rest : list value),
         typeof v <> "function" ->
         listeners (new_State (VArr ((VFun <$> fs) ++ v :: rest))) = fs)
  /\ (forall given : value, isArray given = false ->
         listeners (new_State given) = [])
  /\ (forall given : value,
         getState (new_State given) = ∅
         /\ updateCallback (new_State given) = None).
Proof.
  split; [| split; [| split]].
  - intros fs. rewrite <- (app_nil_r (VFun <$> fs)).
    by rewrite new_State_functions.
  - intros fs v rest Hv. rewrite new_State_functions. simpl.
    destruct v; solve [done | by destruct Hv].
  - intros given H. by destruct given.
  - done.
Qed.

Lemma new_State_listeners_witness :
  listeners (new_State (VArr [VFun 1; VFun 2; VNum 0; VFun 3])) = [1; 2].
Proof.
  exact (proj1 (proj2 new_State_listeners) [1; 2] (VNum 0) [VFun 3]
           ltac:(discriminate)).
Defined.

(** X2. The notification of a store through its life: built with the
    listeners [fs], given an update callback and then another one, it
    answers [setState(partial)] with an object, the second argument left
    out or truthy, by calling every listener once in the order of [fs] and
    then the callback set last, once; the callback set first is not
    called. *)
Theorem setState_notifies (fs : list fn) (c1 c2 : fn)
    (partial triggerUpdate : value) :
  is_object partial = true ->
  truthy (default_arg triggerUpdate (VBool true)) = true ->
  (setState partial triggerUpdate
     (setUpdateCallback c2
        (setUpdateCallback c1 (new_State (VArr (VFun <$> fs)))))).1.2
  = ((fun f => Invoke f []) <$> fs) ++ [Invoke c2 []].
Proof.
  intros Hobj Hnotify.
  assert (listeners (new_State (VArr (VFun <$> fs))) = fs) as Hl.
  { rewrite <- (app_nil_r (VFun <$> fs)). by rewrite new_State_functions. }
  remember (new_State (VArr (VFun <$> fs))) as s0 eqn:Hs0. clear Hs0.
  unfold is_object in Hobj. unfold setState.
  destruct (String.eqb (typeof partial) "object"), (is_null partial);
    simpl in Hobj; try discriminate.
  simpl negb. simpl orb. cbv iota. rewrite Hnotify.
  unfold update. simpl. by rewrite Hl.
Qed.

Lemma setState_notifies_witness :
  (setState (VObj [("count", VNum 1)]) VUndefined
     (setUpdateCallback 9
        (setUpdateCallback 8 (new_State (VArr [VFun 1; VFun 2]))))).1.2
  = [Invoke 1 []; Invoke 2 []; Invoke 9 []].
Proof.
  exact (setState_notifies [1; 2] 8 9 (VObj [("count", VNum 1)]) VUndefined
           eq_refl eq_refl).
Defined.

(** X3. [setState] refuses exactly the values that are no objects
    (primitives, [undefined], [null], functions) and a refused call is no
    call at all: it returns [false], leaves the store as it is and
    notifies nobody, whatever its second argument. *)
Theorem setState_refusal (newVal triggerUpdate : value) (s : State) :
  ((setState newVal triggerUpdate s).2 = false <-> is_object newVal = false)
  /\ ((setState newVal triggerUpdate s).2 = false ->
      setState newVal triggerUpdate s = (s, [], false))
  /\ (forall f : fn, (setState (VFun f) triggerUpdate s).2 = false).
Proof.
  assert (forall f : fn, (setState (VFun f) triggerUpdate s).2 = false) as Hf.
  { intros f. by rewrite setState_rejects. }
  destruct (is_object newVal) eqn:Hobj.
  - destruct (setState_accepts newVal triggerUpdate s Hobj) as [calls ->].
    simpl. split; [split; discriminate | split; [discriminate | exact Hf]].
  - rewrite setState_rejects by done. simpl.
    split; [split; done | split; [done | exact Hf]].
Qed.

Lemma setState_refusal_witness :
  setState (VStr "count") (VBool true)
    (setUpdateCallback 9 (new_State (VArr [VFun 1])))
  = (setUpdateCallback 9 (new_State (VArr [VFun 1])), [], false).
Proof.
  apply (proj1 (proj2 (setState_refusal (VStr "count") (VBool true)
                         (setUpdateCallback 9 (new_State (VArr [VFun 1])))))).
  reflexivity.
Defined.

Lemma first_bindings_lookup (seen : list string)
    (props : list (string * value)) (k : string) :
  (list_to_map (first_bindings seen props) : gmap string value) !! k
  = if bool_decide (k ∈ seen) then None
    else (list_to_map props : gmap string value) !! k.
Proof.
  revert seen. induction props as [|[k' v] rest IH]; intros seen; simpl.
  - rewrite lookup_empty. by destruct (bool_decide _).
  - destruct (bool_decide (k' ∈ seen)) eqn:Hseen.
    + rewrite IH. destruct (bool_decide (k ∈ seen)) eqn:Hk; [done |].
      rewrite lookup_insert_ne; [done |]. intros ->.
      apply bool_decide_eq_true in Hseen. apply bool_decide_eq_false in Hk.
      done.
    + simpl. destruct (decide (k' = k)) as [-> | Hne].
      * rewrite !lookup_insert_eq. by rewrite Hseen.
      * rewrite !lookup_insert_ne by done. rewrite IH.
        destruct (bool_decide (k ∈ seen)) eqn:Hk.
        -- apply bool_decide_eq_true in Hk.
           rewrite bool_decide_eq_true_2; [done | by right].
        -- apply bool_decide_eq_false in Hk.
           rewrite bool_decide_eq_false_2; [done |].
           intros Hin. apply elem_of_cons in Hin as [-> | Hin]; done.
Qed.

(** The object [{ ...p1, ...p2 }], as the model writes it. *)
Lemma own_props_merged (p1 p2 : value) :
  own_props (VObj (entries p2 ++ entries p1)) = own_props p2 ∪ own_props p1.
Proof.
  apply map_eq. intros k. unfold own_props. simpl.
  rewrite first_bindings_lookup. simpl.
  by rewrite list_to_map_app.
Qed.

(** X4. Calls of [setState] compose: two calls with the objects [p1] and
    then [p2] leave the state that one call with [{ ...p1, ...p2 }]
    leaves, and a call repeated with the same object changes nothing the
    second time. *)
Theorem setState_compose (s : State) (p1 p2 merged t1 t2 t : value) :
  is_object p1 = true -> is_object p2 = true -> is_object merged = true ->
  own_props merged = own_props p2 ∪ own_props p1 ->
  getState (setState p2 t2 (setState p1 t1 s).1.1).1.1
  = getState (setState merged t s).1.1
  /\ getState (setState p1 t2 (setState p1 t1 s).1.1).1.1
     = getState (setState p1 t1 s).1.1.
Proof.
  intros H1 H2 Hm Hmerged.
  destruct (setState_accepts p1 t1 s H1) as [c1 ->]. simpl.
  destruct (setState_accepts p2 t2 (mkState (spread (state s) p1) (listeners s)
              (updateCallback s)) H2) as [c2 ->].
  destruct (setState_accepts merged t s Hm) as [c ->].
  destruct (setState_accepts p1 t2 (mkState (spread (state s) p1) (listeners s)
              (updateCallback s)) H1) as [c3 ->].
  unfold getState, spread; simpl. split.
  - rewrite Hmerged. apply map_eq. intros k. rewrite !lookup_union.
    by destruct (own_props p2 !! k), (own_props p1 !! k), (state s !! k).
  - apply map_eq. intros k. rewrite !lookup_union.
    by destruct (own_props p1 !! k), (state s !! k).
Qed.

Lemma setState_compose_witness :
  let p1 := VObj [("filter", VStr "all"); ("nextId", VNum 1)] in
  let p2 := VObj [("filter", VStr "active")] in
  getState (setState p2 VUndefined
              (setState p1 VUndefined (new_State VUndefined)).1.1).1.1
  = getState (setState (VObj (entries p2 ++ entries p1)) VUndefined
                (new_State VUndefined)).1.1.
Proof.
  intros p1 p2.
  exact (proj1 (setState_compose (new_State VUndefined) p1 p2
                  (VObj (entries p2 ++ entries p1))
                  VUndefined VUndefined VUndefined eq_refl eq_refl eq_refl
                  (own_props_merged p1 p2))).
Defined.

(** ** The router *)

Lemma addRoute_step (url handler : value) (w : World) :
  exists b,
    addRoute url handler w
    = (set_allRoutes (allRoutes (addRoute url handler w).1) w, Return b)
    /\ (forall path h, allRoutes w !! path = Some h ->
                       allRoutes (addRoute url handler w).1 !! path = Some h)
    /\ (forall path h,
           allRoutes (addRoute url handler w).1 !! path = Some h ->
           allRoutes w !! path = Some h
           \/ (url = VStr path /\ handler = VFun h)).
Proof.
  unfold addRoute.
  destruct url as [| |b|n|path|f|n|xs|ps];
    try (exists false; by destruct w; repeat split; auto).
  destruct handler as [| |b|n|t|h|n|xs|ps];
    try (exists false; by destruct w; repeat split; auto).
  destruct (allRoutes w !! path) as [old|] eqn:Hold.
  - exists false. destruct w; repeat split; auto.
  - exists true. simpl. repeat split.
    + intros p h' Hp. rewrite lookup_insert_ne; [done |]. congruence.
    + intros p h' Hp. destruct (decide (path = p)) as [<- | Hne].
      * rewrite lookup_insert_eq in Hp. injection Hp as <-. by right.
      * rewrite lookup_insert_ne in Hp by done. by left.
Qed.

Lemma addRoute_sequence (calls : list (value * value)) (w w' : World)
    (o : outcome unit) :
  forEach calls (fun c => let* _ := addRoute c.1 c.2 in ret tt) w = (w', o) ->
  o = Return tt
  /\ (forall path h, allRoutes w !! path = Some h ->
                     allRoutes w' !! path = Some h)
  /\ (forall path h, allRoutes w' !! path = Some h ->
                     allRoutes w !! path = Some h
                     \/ In (VStr path, VFun h) calls)
  /\ w' = set_allRoutes (allRoutes w') w.
Proof.
  revert w. induction calls as [|[url handler] rest IH]; intros w Hrun;
    simpl in Hrun.
  - injection Hrun as <- <-. repeat split; auto. by destruct w.
  - unfold bind at 1 in Hrun. unfold bind at 1 in Hrun.
    destruct (addRoute_step url handler w) as (b & Hstep & Hkeep & Hnew).
    destruct (addRoute url handler w) as [w1 o1] eqn:E. simpl in *.
    injection Hstep as Hw1 ->. unfold ret at 1 in Hrun.
    destruct (IH w1 Hrun) as (H1 & H2 & H3 & H4).
    split; [exact H1 |]. split; [| split].
    + intros path h Hp. by apply H2, Hkeep.
    + intros path h Hp. destruct (H3 path h Hp) as [Hin | Hin]; [| by auto].
      destruct (Hnew path h Hin) as [? | [-> ->]]; auto.
    + rewrite H4 at 1. rewrite Hw1. reflexivity.
Qed.

(** X5. However many routes are registered one after the other, and
    whatever the arguments, no call throws, a path keeps the handler it had
    (the first registration wins for good), every path of the table was
    there before or comes from one of the calls, and nothing but the table
    changes. *)
Theorem addRoute_first_wins (calls : list (value * value)) (w : World) :
  let r := forEach calls (fun c => let* _ := addRoute c.1 c.2 in ret tt) w in
  r.2 = Return tt
  /\ (forall path h, allRoutes w !! path = Some h ->
                     allRoutes r.1 !! path = Some h)
  /\ (forall path h, allRoutes r.1 !! path = Some h ->
                     allRoutes w !! path = Some h
                     \/ In (VStr path, VFun h) calls)
  /\ r.1 = set_allRoutes (allRoutes r.1) w.
Proof.
  intros r. subst r.
  destruct (forEach calls _ w) as [w' o] eqn:Hrun.
  by apply addRoute_sequence in Hrun.
Qed.

Lemma startsWith_marker_false (s : string) :
  startsWith s "#" = false -> strip_marker s = s.
Proof. intros H. unfold strip_marker. by rewrite H. Qed.

(** X6. [executeRoute] takes its url with or without the fragment marker:
    for a path that does not itself start with the marker the two calls
    do the same. *)
Theorem executeRoute_marker_optional (path : string) (w : World) :
  startsWith path "#" = false ->
  executeRoute (String "#" path) w = executeRoute path w.
Proof.
  intros H. rewrite !executeRoute_run. unfold resolved_path.
  by rewrite strip_marker_marked, (startsWith_marker_false _ H).
Qed.

Lemma executeRoute_marker_optional_witness :
  executeRoute "#/active" (set_allRoutes {[ "/active" := 4 ]} initial_world)
  = executeRoute "/active" (set_allRoutes {[ "/active" := 4 ]} initial_world).
Proof. exact (executeRoute_marker_optional "/active" _ eq_refl). Defined.



(** ** The renderer: what a pass builds *)

Lemma set_document_same (w : World) : set_document (document w) w = w.
Proof. by destruct w. Qed.

Lemma with_ops_nil (el : node) (w : World) : with_ops el [] w = w.
Proof.
  unfold with_ops. destruct w as [s r f d doc nx h t].
  unfold set_document; simpl. f_equal.
  apply map_eq. intros n. rewrite lookup_alter.
  destruct (decide (el = n)) as [<- |]; [| done].
  destruct (doc !! el) as [[tg c a]|]; simpl; [| done].
  by rewrite app_nil_r.
Qed.

Lemma with_ops_app (el : node) (ops1 ops2 : list dom_op) (w : World) :
  with_ops el ops2 (with_ops el ops1 w) = with_ops el (ops1 ++ ops2) w.
Proof.
  unfold with_ops. destruct w as [s r f d doc nx h t].
  unfold set_document; simpl. f_equal.
  apply map_eq. intros n.
  destruct (decide (el = n)) as [<- | Hne].
  - rewrite !lookup_alter_eq.
    destruct (doc !! el) as [[tg c a]|]; simpl; [| done].
    by rewrite app_assoc.
  - by rewrite !lookup_alter_ne.
Qed.

Lemma apply_op_run (el : node) (op : dom_op) (w : World) :
  apply_op el op w = (with_ops el [op] w, Return tt).
Proof. reflexivity. Qed.

Lemma forEach_returns_inv {A} (xs : list A) (body : A -> M unit)
    (w w' : World) :
  forEach xs body w = (w', Return tt) ->
  forall x, In x xs -> exists w1 w2, body x w1 = (w2, Return tt).
Proof.
  revert w. induction xs as [|y rest IH]; intros w Hrun x Hx; [done |].
  simpl in Hrun. unfold bind in Hrun.
  destruct (body y w) as [w1 [[] | e |]] eqn:Hy; try discriminate.
  destruct Hx as [<- | Hx]; [eauto | by eapply IH].
Qed.

Lemma children_loop_returns (children : list value) (w w' : World) :
  forEach children (fun child =>
    if not_a_virtual_element child then refuse_child child else ret tt) w
  = (w', Return tt) ->
  w' = w /\ Forall child_accepted children.
Proof.
  revert w. induction children as [|child rest IH]; intros w Hrun;
    simpl in Hrun.
  - injection Hrun as <-. by split.
  - unfold bind in Hrun.
    destruct (not_a_virtual_element child) eqn:Hc.
    + destruct (refuse_child_throws child w) as (w1 & e & Hthrow).
      rewrite Hthrow in Hrun. discriminate.
    + unfold ret at 1 in Hrun. destruct (IH w Hrun) as [-> Hrest].
      split; [done |]. constructor; [by apply child_accepted_iff | done].
Qed.

(** When [createVirtualElement] returns, it returns the object made of its
    arguments, has changed nothing, and its arguments and the members of
    [children] had passed its tests. *)
Lemma createVirtualElement_returns (tag attributes innerText children e : value)
    (w w' : World) :
  createVirtualElement tag attributes innerText children w = (w', Return e) ->
  w' = w
  /\ e = virtual_element tag attributes innerText children
  /\ arguments_accepted tag attributes innerText children
  /\ Forall child_accepted (elements children).
Proof.
  unfold createVirtualElement. intros Hrun.
  destruct (negb (truthy tag) || _) eqn:Ht; [discriminate |].
  destruct (negb (truthy attributes) || _ || _) eqn:Ha; [discriminate |].
  destruct (truthy innerText && _) eqn:Hi; [discriminate |].
  destruct (negb (truthy children) || _) eqn:Hc; [discriminate |].
  apply tag_test in Ht. apply attributes_test in Ha.
  apply innerText_test in Hi. apply children_test in Hc.
  unfold bind in Hrun.
  destruct (forEach _ _ w) as [w1 [[] | err |]] eqn:Hloop; try discriminate.
  apply children_loop_returns in Hloop as [-> Hall].
  unfold ret in Hrun. injection Hrun as <- <-. by repeat split.
Qed.

Lemma returned_child_accepted (tag attributes innerText children e : value)
    (w w' : World) :
  createVirtualElement tag attributes innerText children w = (w', Return e) ->
  child_accepted e.
Proof.
  intros Hrun.
  apply createVirtualElement_returns in Hrun
    as (_ & -> & ((t & -> & _) & Ha & _ & (cs & ->)) & _).
  destruct (get_prop_virtual_element (VStr t) attributes innerText (VArr cs))
    as (E1 & E2 & _ & E4 & _).
  unfold child_accepted. rewrite E1, E2, E4. repeat split; eauto.
  unfold is_object in Ha. by destruct attributes.
Qed.

(** X13. Trees are built from the leaves up: whatever
    [createVirtualElement] has returned passes, as a member of [children],
    the test of [createVirtualElement]; so a call whose own arguments are
    accepted and whose children were all returned by earlier calls
    returns. *)
Theorem createVirtualElement_nests (tag attributes innerText : value)
    (children : list value) (w : World) :
  (forall c, In c children ->
     exists t a i k w1 w2, createVirtualElement t a i k w1 = (w2, Return c)) ->
  arguments_accepted tag attributes innerText (VArr children) ->
  createVirtualElement tag attributes innerText (VArr children) w
  = (w, Return (virtual_element tag attributes innerText (VArr children))).
Proof.
  intros Hbuilt Hargs. apply createVirtualElement_accepts; [exact Hargs |].
  simpl. apply Forall_forall. intros c Hc. apply list_elem_of_In in Hc.
  destruct (Hbuilt c Hc) as (t & a & i & k & w1 & w2 & Hrun).
  by eapply returned_child_accepted.
Qed.

Lemma createVirtualElement_nests_witness :
  let li := virtual_element (VStr "li") (VObj []) (VStr "milk") (VArr []) in
  createVirtualElement (VStr "ul") (VObj []) (VStr "") (VArr [li; li])
    initial_world
  = (initial_world,
     Return (virtual_element (VStr "ul") (VObj []) (VStr "") (VArr [li; li]))).
Proof.
  intros li. apply createVirtualElement_nests.
  - intros c [<- | [<- | []]];
      by exists (VStr "li"), (VObj []), (VStr "milk"), (VArr []),
        initial_world, initial_world.
  - repeat split; eauto; discriminate.
Defined.

Section Rendering.

Variable createElement_accepts : value -> bool.
Variable setAttribute_accepts : string -> bool.

Local Abbreviation applyAttribute'' :=
  (applyAttribute setAttribute_accepts).
Local Abbreviation attribute_accepted' :=
  (attribute_accepted setAttribute_accepts).
Local Abbreviation run_fuel :=
  (elementToHtmlElement_fuel createElement_accepts setAttribute_accepts).
Local Abbreviation run :=
  (elementToHtmlElement createElement_accepts setAttribute_accepts).
Local Abbreviation renderable' :=
  (renderable createElement_accepts setAttribute_accepts).

(** One turn of the attribute loop: the calls of [attribute_ops] when the
    document accepts the names, an error otherwise. *)
Lemma applyAttribute_run (el : node) (attr : string * value) (w : World) :
  if attribute_accepted' attr then
    applyAttribute'' el attr w = (with_ops el (attribute_ops attr) w, Return tt)
  else exists w', applyAttribute'' el attr w = (w', Throw InvalidCharacterError).
Proof.
  destruct attr as [name v].
  unfold attribute_accepted, attribute_ops, applyAttribute, plainAttribute,
    plain_ops, setAttribute; simpl.
  assert (forall name' v',
    if forallb (fun op => match op with
                          | SetAttribute n _ => setAttribute_accepts n
                          | _ => true
                          end)
         (if String.eqb name' "checked" then
            if truthy v'
            then [SetChecked true; SetAttribute "checked" (VStr "checked")]
            else [SetChecked false; RemoveAttribute "checked"]
          else if negb (is_null v') && negb (is_undefined v')
               then [SetAttribute name' v'] else [])
    then
      (if String.eqb name' "checked" then
         if truthy v' then
           apply_op el (SetChecked true) >>
           (if setAttribute_accepts "checked"
            then apply_op el (SetAttribute "checked" (VStr "checked"))
            else throw InvalidCharacterError)
         else apply_op el (SetChecked false) >>
              apply_op el (RemoveAttribute "checked")
       else if negb (is_null v') && negb (is_undefined v') then
              if setAttribute_accepts name'
              then apply_op el (SetAttribute name' v')
              else throw InvalidCharacterError
            else ret tt) w
      = (with_ops el
           (if String.eqb name' "checked" then
              if truthy v'
              then [SetChecked true; SetAttribute "checked" (VStr "checked")]
              else [SetChecked false; RemoveAttribute "checked"]
            else if negb (is_null v') && negb (is_undefined v')
                 then [SetAttribute name' v'] else []) w, Return tt)
    else exists w',
      (if String.eqb name' "checked" then
         if truthy v' then
           apply_op el (SetChecked true) >>
           (if setAttribute_accepts "checked"
            then apply_op el (SetAttribute "checked" (VStr "checked"))
            else throw InvalidCharacterError)
         else apply_op el (SetChecked false) >>
              apply_op el (RemoveAttribute "checked")
       else if negb (is_null v') && negb (is_undefined v') then
              if setAttribute_accepts name'
              then apply_op el (SetAttribute name' v')
              else throw InvalidCharacterError
            else ret tt) w
      = (w', Throw InvalidCharacterError)) as Hplain.
  { intros name' v'.
    destruct (String.eqb name' "checked").
    - destruct (truthy v'); simpl.
      + destruct (setAttribute_accepts "checked"); simpl.
        * unfold bind. rewrite !apply_op_run. by rewrite with_ops_app.
        * unfold bind. rewrite apply_op_run. unfold throw. eauto.
      + unfold bind. rewrite !apply_op_run. by rewrite with_ops_app.
    - destruct (negb (is_null v') && negb (is_undefined v')); simpl.
      + destruct (setAttribute_accepts name'); simpl.
        * by rewrite apply_op_run.
        * unfold throw. eauto.
      + unfold ret. by rewrite with_ops_nil. }
  destruct v; try apply Hplain.
  destruct (startsWith name "on"); [| apply Hplain].
  simpl. by rewrite apply_op_run.
Qed.

(** The whole loop. *)
Lemma attribute_loop_run (el : node) (attrs : list (string * value))
    (w : World) :
  if forallb attribute_accepted' attrs then
    forEach attrs (applyAttribute'' el) w
    = (with_ops el (flat_map attribute_ops attrs) w, Return tt)
  else exists w' e, forEach attrs (applyAttribute'' el) w = (w', Throw e).
Proof.
  revert w. induction attrs as [|attr rest IH]; intros w; simpl.
  - unfold ret. by rewrite with_ops_nil.
  - pose proof (applyAttribute_run el attr w) as Hattr.
    destruct (attribute_accepted' attr); simpl.
    + unfold bind. rewrite Hattr.
      specialize (IH (with_ops el (attribute_ops attr) w)).
      destruct (forallb attribute_accepted' rest).
      * rewrite IH. by rewrite with_ops_app.
      * exact IH.
    + destruct Hattr as [w' Hattr]. unfold bind. rewrite Hattr. eauto.
Qed.

(** [elementToHtmlElement] up to its children: the errors it may throw
    before, and the world it reaches otherwise. *)
Lemma run_fuel_start (fuel : nat) (elem : value) (w : World) :
  if is_object elem
     && createElement_accepts (get_prop elem "tag")
     && negb (not_a_plain_object (get_prop elem "attributes"))
     && forallb attribute_accepted' (entries (get_prop elem "attributes"))
  then
    run_fuel (S fuel) elem w
    = (match get_prop elem "children" with
       | VArr children =>
           forEach children (fun child =>
             let* c := run_fuel fuel child in
             appendChild (next_node w) c)
       | _ => throw TypeError
       end >> ret (next_node w)) (started elem w)
  else exists w' e, run_fuel (S fuel) elem w = (w', Throw e).
Proof.
  assert (forall w0 : World,
    when (truthy (get_prop elem "innerText"))
      (set_innerText (next_node w) (get_prop elem "innerText")) w0
    = ((when (truthy (get_prop elem "innerText"))
          (set_innerText (next_node w) (get_prop elem "innerText")) w0).1,
       Return tt)) as Htext.
  { intros w0. unfold when. by destruct (truthy _). }
  cbn [elementToHtmlElement_fuel]. unfold is_object.
  destruct (String.eqb (typeof elem) "object"); cbn [andb negb];
    [| unfold throw; eauto].
  destruct (is_null elem); cbn [andb negb]; [unfold throw; eauto |].
  unfold createElement.
  destruct (createElement_accepts (get_prop elem "tag")); cbn [andb];
    [| unfold bind, throw; eauto].
  destruct (not_a_plain_object (get_prop elem "attributes")) eqn:Hplain;
    cbn [andb negb].
  { unfold bind at 1. cbv beta iota. unfold bind at 1. unfold modify at 1.
    cbv beta iota. unfold bind at 1. unfold modify at 1. cbv beta iota.
    unfold bind at 1. rewrite Htext. cbv beta iota.
    unfold bind at 1. unfold throw at 1. eauto. }
  pose proof (attribute_loop_run (next_node w)
                (entries (get_prop elem "attributes"))) as Hloop.
  destruct (forallb attribute_accepted' _).
  - unfold bind at 1. cbv beta iota. unfold bind at 1. unfold modify at 1.
    cbv beta iota. unfold bind at 1. unfold modify at 1. cbv beta iota.
    unfold bind at 1. rewrite Htext. cbv beta iota.
    unfold bind at 1. unfold ret at 1. cbv beta iota.
    unfold bind at 1. rewrite Hloop. cbv beta iota.
    match goal with
    | |- _ ?w1 = _ => replace w1 with (started elem w); [reflexivity |]
    end.
    unfold started, with_ops, when, text_of, set_innerText, on_node, modify.
    destruct (truthy (get_prop elem "innerText")); simpl;
      unfold set_document; simpl; f_equal;
      rewrite ?alter_insert_eq; simpl; reflexivity.
  - unfold bind at 1. cbv beta iota. unfold bind at 1. unfold modify at 1.
    cbv beta iota. unfold bind at 1. unfold modify at 1. cbv beta iota.
    unfold bind at 1. rewrite Htext. cbv beta iota.
    unfold bind at 1. unfold ret at 1. cbv beta iota.
    unfold bind at 1.
    match goal with
    | |- context [forEach _ _ ?w1] =>
        destruct (Hloop w1) as (w' & e & ->)
    end.
    eauto.
Qed.

(** The loop over the children of a node, and the second loop of
    [updateDom]: when every member can be rendered, the parent receives one
    new node per member, in order, and each of these nodes stands for its
    member in the reverse table; the nodes that existed, the parent apart,
    are as they were. *)
Lemma kids_loop (run1 : value -> M node) (parent : node) (cs : list value)
    (w : World) (e : Element) :
  (forall c, In c cs -> renders run1 c) ->
  parent < next_node w ->
  document w !! parent = Some e ->
  exists (w' : World) (kids : list node),
    forEach cs (fun child =>
      let* c := run1 child in appendChild parent c) w = (w', Return tt)
    /\ next_node w <= next_node w'
    /\ (forall m : node, m < next_node w -> m <> parent ->
          document w' !! m = document w !! m)
    /\ (forall m : node, m < next_node w ->
          domToVirtualMap w' !! m = domToVirtualMap w !! m)
    /\ Forall (fun k : node => next_node w <= k < next_node w') kids
    /\ Forall2 (fun (c : value) (k : node) =>
                  domToVirtualMap w' !! k = Some c) cs kids
    /\ document w' !! parent
       = Some (mkElement (tagName e) (childNodes e ++ (Child <$> kids))
                 (applied e)).
Proof.
  revert w e. induction cs as [|c rest IH]; intros w e Hcs Hparent He.
  - exists w, []. simpl. rewrite app_nil_r. destruct e.
    repeat split; auto; constructor.
  - destruct (Hcs c (or_introl eq_refl) w)
      as (w1 & kids1 & Hrun & Hnext & Hframe & Hrev & _ & _ & _).
    set (w2 := (appendChild parent (next_node w) w1).1).
    assert (document w2 !! parent
            = Some (mkElement (tagName e)
                      (childNodes e ++ [Child (next_node w)]) (applied e)))
      as He2.
    { unfold w2; simpl. rewrite lookup_alter_eq.
      rewrite (proj1 (Hframe parent Hparent)), He. reflexivity. }
    destruct (IH w2 _ (fun c' Hc' => Hcs c' (or_intror Hc'))
                ltac:(simpl; lia) He2)
      as (w' & kids & Hloop & Hnext' & Hdoc' & Hrev' & Hkids & Hmap & Hp).
    simpl in Hnext', Hdoc', Hrev', Hkids.
    exists w', (next_node w :: kids).
    split.
    { simpl. unfold bind at 1. unfold bind at 1. rewrite Hrun.
      cbv beta iota. exact Hloop. }
    split; [lia |].
    split.
    { intros m Hm Hne. rewrite Hdoc' by (done || lia).
      rewrite lookup_alter_ne by done. by apply Hframe. }
    split.
    { intros m Hm. rewrite Hrev' by lia. by apply Hframe. }
    split.
    { constructor; [lia |].
      eapply Forall_impl; [exact Hkids |]. simpl. intros k Hk. lia. }
    split.
    { constructor; [| exact Hmap]. rewrite Hrev' by lia. exact Hrev. }
    rewrite Hp. simpl. by rewrite <- app_assoc.
Qed.

(** A tree that is [renderable] is rendered, for any bound on the
    recursion above its nesting. *)
Lemma renders_fuel (fuel : nat) (elem : value) :
  depth elem < fuel -> renderable' elem -> renders (run_fuel fuel) elem.
Proof.
  revert elem. induction fuel as [|fuel IH]; intros elem Hdepth Hr; [lia |].
  destruct Hr as [elem children Hobj Htag Hplain Hattrs Hchildren Hall].
  intros w.
  pose proof (run_fuel_start fuel elem w) as Hstart.
  rewrite Hobj, Htag, Hplain, Hattrs, Hchildren in Hstart.
  cbn [andb negb] in Hstart.
  destruct (kids_loop (run_fuel fuel) (next_node w) children (started elem w)
              (mkElement (get_prop elem "tag") (text_of elem)
                 (flat_map attribute_ops
                    (entries (get_prop elem "attributes")))))
    as (w' & kids & Hloop & Hnext & Hdoc & Hrev & Hkids & Hmap & Hp).
  { intros c Hc. apply IH.
    - pose proof (depth_get_prop _ _ _ _ Hchildren Hc). lia.
    - rewrite Forall_forall in Hall. apply Hall. by apply list_elem_of_In. }
  { simpl. lia. }
  { simpl. by rewrite lookup_insert_eq. }
  simpl in Hnext, Hdoc, Hrev, Hkids, Hp.
  exists w', kids. split.
  { rewrite Hstart. unfold bind at 1. rewrite Hloop. reflexivity. }
  split; [lia |].
  split.
  { intros m Hm. split.
    - rewrite Hdoc by lia. rewrite lookup_insert_ne; [done | lia].
    - rewrite Hrev by lia. rewrite lookup_insert_ne; [done | lia]. }
  split.
  { rewrite Hrev by lia. by rewrite lookup_insert_eq. }
  split.
  { rewrite Hchildren. simpl. symmetry. by eapply Forall2_length. }
  split; [| exact Hp].
  eapply Forall_impl; [exact Hkids |]. simpl. intros k Hk. lia.
Qed.

(** And only such a tree is. *)
Lemma returns_renderable (fuel : nat) (elem : value) (w w' : World)
    (n : node) :
  run_fuel fuel elem w = (w', Return n) -> renderable' elem.
Proof.
  revert elem w w' n. induction fuel as [|fuel IH]; intros elem w w' n Hrun;
    [discriminate |].
  pose proof (run_fuel_start fuel elem w) as Hstart.
  destruct (is_object elem) eqn:Hobj; cbn [andb negb] in Hstart;
    [| destruct Hstart as (? & ? & Hs); congruence].
  destruct (createElement_accepts _) eqn:Htag; cbn [andb negb] in Hstart;
    [| destruct Hstart as (? & ? & Hs); congruence].
  destruct (not_a_plain_object _) eqn:Hplain; cbn [andb negb] in Hstart;
    [destruct Hstart as (? & ? & Hs); congruence |].
  destruct (forallb _ _) eqn:Hattrs;
    [| destruct Hstart as (? & ? & Hs); congruence].
  rewrite Hstart in Hrun. unfold bind at 1 in Hrun.
  destruct (get_prop elem "children") as [| | | | | | |children|] eqn:Hc;
    try discriminate.
  destruct (forEach children _ (started elem w)) as [w1 [[] | e |]] eqn:Hloop;
    try discriminate.
  apply (renderable_node _ _ elem children); try done.
  apply Forall_forall. intros c Hin. apply list_elem_of_In in Hin.
  destruct (forEach_returns_inv _ _ _ _ Hloop c Hin) as (w2 & w3 & Hbody).
  unfold bind in Hbody.
  destruct (run_fuel fuel c w2) as [w4 [k | e |]] eqn:Hk; try discriminate.
  by eapply IH.
Qed.

Lemma renderable_typeof (elem : value) :
  renderable' elem -> String.eqb (typeof elem) "object" = true.
Proof.
  intros [? ? Hobj _ _ _ _ _]. unfold is_object in Hobj.
  by apply andb_true_iff in Hobj as [-> _].
Qed.




Lemma attribute_loop_refused (el : node) (attrs : list (string * value))
    (w : World) :
  forallb attribute_accepted' attrs = false ->
  exists w',
    forEach attrs (applyAttribute'' el) w = (w', Throw InvalidCharacterError).
Proof.
  revert w. induction attrs as [|attr rest IH]; intros w H; [discriminate |].
  simpl in *. pose proof (applyAttribute_run el attr w) as Hattr.
  unfold bind. destruct (attribute_accepted' attr); simpl in H.
  - rewrite Hattr. by apply IH.
  - destruct Hattr as [w' ->]. eauto.
Qed.

(** On an object with a plain object as attributes, the first part of
    [elementToHtmlElement] can only fail on a name. *)
Lemma run_fuel_refused (fuel : nat) (elem : value) (w : World) :
  is_object elem = true ->
  not_a_plain_object (get_prop elem "attributes") = false ->
  createElement_accepts (get_prop elem "tag")
  && forallb attribute_accepted' (entries (get_prop elem "attributes")) = false ->
  exists w', run_fuel (S fuel) elem w = (w', Throw InvalidCharacterError).
Proof.
  intros Hobj Hplain Hnames.
  assert (forall w0 : World,
    when (truthy (get_prop elem "innerText"))
      (set_innerText (next_node w) (get_prop elem "innerText")) w0
    = ((when (truthy (get_prop elem "innerText"))
          (set_innerText (next_node w) (get_prop elem "innerText")) w0).1,
       Return tt)) as Htext.
  { intros w0. unfold when. by destruct (truthy _). }
  cbn [elementToHtmlElement_fuel]. unfold is_object in Hobj.
  apply andb_true_iff in Hobj as [-> Hnull].
  apply negb_true_iff in Hnull as ->. cbn [negb]. cbv iota.
  unfold createElement.
  destruct (createElement_accepts (get_prop elem "tag")); simpl in Hnames;
    [| unfold bind, throw; eauto].
  rewrite Hplain.
  unfold bind at 1. cbv beta iota. unfold bind at 1. unfold modify at 1.
  cbv beta iota. unfold bind at 1. unfold modify at 1. cbv beta iota.
  unfold bind at 1. rewrite Htext. cbv beta iota.
  unfold bind at 1. unfold ret at 1. cbv beta iota.
  unfold bind at 1.
  match goal with
  | |- context [forEach _ _ ?w1] =>
      destruct (attribute_loop_refused (next_node w) _ w1 Hnames) as (w' & ->)
  end.
  eauto.
Qed.

Lemma names_loop (run1 : value -> M node) (parent : node) (cs : list value) :
  (forall c, In c cs -> forall w w' o,
      run1 c w = (w', o) ->
      (exists n, o = Return n) \/ o = Throw InvalidCharacterError) ->
  forall w w' o,
    forEach cs (fun child =>
      let* c := run1 child in appendChild parent c) w = (w', o) ->
    o = Return tt \/ o = Throw InvalidCharacterError.
Proof.
  induction cs as [|c rest IH]; intros Hcs w w' o Hrun; simpl in Hrun.
  - injection Hrun as <- <-. by left.
  - unfold bind at 1 in Hrun. unfold bind at 1 in Hrun.
    destruct (run1 c w) as [w1 o1] eqn:Hc.
    destruct (Hcs c (or_introl eq_refl) _ _ _ Hc) as [[n ->] | ->].
    + simpl in Hrun. eapply IH; [| exact Hrun].
      intros c' Hc'. apply Hcs. by right.
    + injection Hrun as <- <-. by right.
Qed.

Lemma well_formed_names_only (fuel : nat) (elem : value) (w w' : World)
    (o : outcome node) :
  depth elem < fuel -> well_formed elem ->
  run_fuel fuel elem w = (w', o) ->
  (exists n, o = Return n) \/ o = Throw InvalidCharacterError.
Proof.
  revert elem w w' o. induction fuel as [|fuel IH];
    intros elem w w' o Hdepth Hwf Hrun; [lia |].
  destruct Hwf as [props tag attrs children Htag Hne Hattrs Htext Hc Hall].
  assert (not_a_plain_object (get_prop (VObj props) "attributes") = false)
    as Hplain by (by rewrite Hattrs).
  destruct (createElement_accepts (get_prop (VObj props) "tag")
            && forallb attribute_accepted'
                 (entries (get_prop (VObj props) "attributes"))) eqn:Hnames.
  - pose proof (run_fuel_start fuel (VObj props) w) as Hstart.
    apply andb_true_iff in Hnames as [Ht Ha].
    rewrite Ht, Ha, Hplain, Hc in Hstart.
    change (is_object (VObj props)) with true in Hstart.
    cbn [andb negb] in Hstart. rewrite Hstart in Hrun.
    unfold bind at 1 in Hrun.
    destruct (forEach children _ (started (VObj props) w)) as [w1 o1] eqn:Hloop.
    apply names_loop in Hloop as [-> | ->].
    + injection Hrun as <- <-. left. eauto.
    + injection Hrun as <- <-. by right.
    + intros c Hin w0 w0' o0 Hc0. eapply IH; [| | exact Hc0].
      * pose proof (depth_get_prop _ _ _ _ Hc Hin). lia.
      * rewrite Forall_forall in Hall. apply Hall. by apply list_elem_of_In.
  - destruct (run_fuel_refused fuel (VObj props) w eq_refl Hplain Hnames)
      as [w1 Hw1].
    rewrite Hw1 in Hrun. injection Hrun as <- <-. by right.
Qed.

Lemma well_formed_renderable (fuel : nat) (elem : value) :
  (forall tag, createElement_accepts tag = true) ->
  (forall name, setAttribute_accepts name = true) ->
  depth elem < fuel -> well_formed elem -> renderable' elem.
Proof.
  intros Htags Hnames. revert elem.
  induction fuel as [|fuel IH]; intros elem Hdepth Hwf; [lia |].
  destruct Hwf as [props tag attrs children Htag Hne Hattrs Htext Hc Hall].
  apply (renderable_node _ _ (VObj props) children); try done.
  - by rewrite Hattrs.
  - apply forallb_forall. intros attr _. unfold attribute_accepted.
    apply forallb_forall. intros op _. by destruct op.
  - apply Forall_forall. intros c Hin. apply IH.
    + apply list_elem_of_In in Hin.
      pose proof (depth_get_prop _ _ _ _ Hc Hin). lia.
    + rewrite Forall_forall in Hall. by apply Hall.
Qed.


Lemma run_fuel_not_plain (fuel : nat) (elem : value) (w : World) :
  is_object elem = true ->
  createElement_accepts (get_prop elem "tag") = true ->
  not_a_plain_object (get_prop elem "attributes") = true ->
  exists w',
    run_fuel (S fuel) elem w
    = (w', Throw (Error "Error: elem.attributes is not a plain object")).
Proof.
  intros Hobj Htag Hplain.
  assert (forall w0 : World,
    when (truthy (get_prop elem "innerText"))
      (set_innerText (next_node w) (get_prop elem "innerText")) w0
    = ((when (truthy (get_prop elem "innerText"))
          (set_innerText (next_node w) (get_prop elem "innerText")) w0).1,
       Return tt)) as Htext.
  { intros w0. unfold when. by destruct (truthy _). }
  cbn [elementToHtmlElement_fuel]. unfold is_object in Hobj.
  apply andb_true_iff in Hobj as [-> Hnull].
  apply negb_true_iff in Hnull as ->. cbn [negb]. cbv iota.
  unfold createElement. rewrite Htag, Hplain.
  unfold bind at 1. cbv beta iota. unfold bind at 1. unfold modify at 1.
  cbv beta iota. unfold bind at 1. unfold modify at 1. cbv beta iota.
  unfold bind at 1. rewrite Htext. cbv beta iota.
  unfold bind at 1. unfold throw at 1. eauto.
Qed.

(** X12. The constructor and the renderer disagree on attributes: an array
    passes the test of [createVirtualElement], and the element built with
    it makes [elementToHtmlElement] throw, after it has created the node
    of the element. *)
Theorem array_attributes_built_not_rendered (tag innerText children e : value)
    (attrs : list value) (w w' w0 : World) :
  createVirtualElement tag (VArr attrs) innerText children w = (w', Return e) ->
  createElement_accepts tag = true ->
  exists w1,
    run e w0
    = (w1, Throw (Error "Error: elem.attributes is not a plain object"))
    /\ next_node w1 = S (next_node w0).
Proof.
  intros Hbuilt Htag.
  apply createVirtualElement_returns in Hbuilt as (_ & -> & _ & _).
  destruct (get_prop_virtual_element tag (VArr attrs) innerText children)
    as (E1 & E2 & _).
  unfold run, elementToHtmlElement.
  set (fuel := depth (virtual_element tag (VArr attrs) innerText children)).
  clearbody fuel.
  destruct (run_fuel_not_plain fuel
              (virtual_element tag (VArr attrs) innerText children) w0 eq_refl)
    as [w1 Hw1].
  { by rewrite E1. }
  { by rewrite E2. }
  exists w1. split; [exact Hw1 |].
  revert Hw1. cbn [elementToHtmlElement_fuel]. unfold createElement.
  change (is_null (virtual_element tag (VArr attrs) innerText children))
    with false.
  change (String.eqb (typeof (virtual_element tag (VArr attrs) innerText
                                children)) "object") with true.
  cbn [negb]. cbv iota. rewrite E1, E2, Htag.
  unfold bind, modify, when, set_innerText, on_node, modify, throw.
  destruct (truthy _); simpl; intros [= <-]; reflexivity.
Qed.

End Rendering.




Lemma array_attributes_built_not_rendered_witness :
  exists w1,
    elementToHtmlElement any_tag any_attribute
      (virtual_element (VStr "div") (VArr []) (VStr "") (VArr []))
      initial_world
    = (w1, Throw (Error "Error: elem.attributes is not a plain object"))
    /\ next_node w1 = 2.
Proof.
  exact (array_attributes_built_not_rendered any_tag any_attribute
           (VStr "div") (VStr "") (VArr [])
           (virtual_element (VStr "div") (VArr []) (VStr "") (VArr []))
           [] initial_world initial_world initial_world eq_refl eq_refl).
Defined.

(** ** The application object *)

Lemma executeRoute_returns (url : string) (w : World) :
  (executeRoute url w).2 = Return tt.
Proof.
  rewrite executeRoute_run. cbv zeta.
  by destruct (String.eqb (location_hash w) (with_marker _)).
Qed.

Section Application.

Variable createElement_accepts : value -> bool.
Variable setAttribute_accepts : string -> bool.
Variable querySelector : string -> World -> outcome (option node).
Variable returned : fn -> World -> value.
Variable rerender : fn.

Local Abbreviation render' :=
  (render createElement_accepts setAttribute_accepts returned).
Local Abbreviation init' :=
  (init createElement_accepts setAttribute_accepts querySelector returned).
Local Abbreviation setRenderFunction' := (setRenderFunction rerender).
Local Abbreviation updateDom'' :=
  (updateDom createElement_accepts setAttribute_accepts).

(** A pass of [updateDom] writes nothing to the trace, changes no route
    and not the fragment shown. *)
Lemma updateDom_quiet (topElement : node) (attachElements : value)
    (w : World) :
  let w' := (updateDom'' topElement attachElements w).1 in
  trace w' = trace w /\ allRoutes w' = allRoutes w
  /\ location_hash w' = location_hash w.
Proof.
  rewrite updateDom_run.
  destruct (negb (isArray attachElements)); [done |].
  destruct (negb (elements_are_objects attachElements)); [done |].
  destruct (materializes_append_loop createElement_accepts setAttribute_accepts
              topElement (elements attachElements)
              (prepared topElement attachElements w) (Nat.le_0_l _))
    as [(_ & _ & _ & Ht & _ & Hr & Hl) _].
  cbv zeta. by rewrite Ht, Hr, Hl.
Qed.

(** X14. An application cannot render before it is initialized: on a new
    [App], [render()] throws for want of a render function; once
    [setRenderFunction(f)] has been called (which throws, changing
    nothing, unless [f] is a function, and makes the re-rendering function
    the update callback of the store), [render()] throws for want of
    [init()], and this failed call changes nothing and does not call
    [f]. *)
Theorem render_before_init (selector : string) (w : World) (f : fn) (v : value) :
  let p0 := mkPage (new_App selector) w 0 [] in
  let p1 := (setRenderFunction' (VFun f) p0).1 in
  render' p0
  = (p0, Throw (Error "No render function set. Use setRenderFunction() first."))
  /\ (typeof v <> "function" ->
      setRenderFunction' v p0
      = (p0, Throw (Error "Render function must be a function")))
  /\ (setRenderFunction' (VFun f) p0).2 = Return tt
  /\ renderFunction (app p1) = Some f
  /\ updateCallback (globalStorage (world p1)) = Some rerender
  /\ render' p1 = (p1, Throw (Error "App not initialized. Call init() first.")).
Proof.
  repeat split. intros Hv. destruct v; try reflexivity. by destruct Hv.
Qed.

(** The url [init()] dispatches on. *)
Lemma init_run (p : Page) :
  isInitialized (app p) = false ->
  let a := app p in
  let hash :=
    if String.eqb (location_hash (world p)) "" then "#/"
    else location_hash (world p) in
  init' p
  = match querySelector (rootSelector a) (world p) with
    | Throw e => (p, Throw e)
    | NoFuel => (p, NoFuel)
    | Return None =>
        (set_app (mkApp None (rootSelector a) (renderFunction a) false) p,
         Throw (Error (String.append "Root element with selector "
                         (String.append quote
                            (String.append (rootSelector a)
                               (String.append quote " not found"))))))
    | Return (Some root) =>
        render'
          (mkPage (mkApp (Some root) (rootSelector a) (renderFunction a) true)
             (set_trace
                (trace (executeRoute hash (world p)).1
                 ++ [ConsoleLog [VStr "App initialized (v1.0.0)"]])
                (executeRoute hash (world p)).1)
             (S (hashchange_listeners p)) (warnings p))
    end.
Proof.
  intros Hinit a hash. subst a. unfold init. rewrite Hinit.
  unfold bindP at 1. cbv beta iota.
  destruct (querySelector (rootSelector (app p)) (world p))
    as [[root|] | e |] eqn:Hq; [| | done | done].
  - unfold bindP at 1. unfold modify_app at 1. cbv beta iota.
    unfold bindP at 1. unfold retP at 1. cbv beta iota.
    unfold bindP at 1. cbv beta iota.
    unfold bindP at 1. unfold on_world at 1. simpl world.
    pose proof (executeRoute_returns hash (world p)) as Hret.
    fold hash. destruct (executeRoute hash (world p)) as [w1 o1] eqn:Hroute.
    simpl in Hret. subst o1. cbv beta iota.
    unfold bindP at 1. unfold modify_app at 1. cbv beta iota.
    unfold bindP at 1. unfold on_world at 1. simpl.
    reflexivity.
  - unfold bindP at 1. unfold modify_app at 1. cbv beta iota.
    unfold bindP at 1. unfold throwP at 1. simpl.
    by rewrite Hinit.
Qed.

(** [render()] does not touch the application object, the count of
    listeners or the warnings. *)
Lemma render_page (p : Page) :
  let p' := (render' p).1 in
  app p' = app p /\ hashchange_listeners p' = hashchange_listeners p
  /\ warnings p' = warnings p.
Proof.
  unfold render. destruct (renderFunction (app p)) as [f|]; [| done].
  destruct (rootElement (app p)) as [root|]; [| done].
  unfold on_world.
  match goal with |- context [let '(_, _) := ?m in _] => by destruct m end.
Qed.

(** What [render()] does to the world once the application can render. *)
Lemma render_run (p : Page) (f : fn) (root : node) :
  renderFunction (app p) = Some f ->
  rootElement (app p) = Some root ->
  let w1 := set_trace (trace (world p) ++ [Invoke f []]) (world p) in
  let vdom := returned f w1 in
  let r := updateDom'' root (if isArray vdom then vdom else VArr [vdom]) w1 in
  render' p = (set_world r.1 p, r.2).
Proof.
  intros Hf Hroot. unfold render. rewrite Hf, Hroot. unfold on_world.
  unfold bind at 1. unfold emit at 1. unfold modify at 1. cbv beta iota.
  unfold bind at 1. unfold read at 1. cbv beta iota.
  by destruct (updateDom'' _ _ _).
Qed.

(** X15. [init()] without its root: when the selector finds nothing,
    [init()] throws and has done nothing yet: no listener on [hashchange],
    no dispatch, no rendering, and the application is still to be
    initialized. *)
Theorem init_root_missing (p : Page) :
  isInitialized (app p) = false ->
  querySelector (rootSelector (app p)) (world p) = Return None ->
  (exists message, (init' p).2 = Throw (Error message))
  /\ world (init' p).1 = world p
  /\ hashchange_listeners (init' p).1 = hashchange_listeners p
  /\ warnings (init' p).1 = warnings p
  /\ app (init' p).1
     = mkApp None (rootSelector (app p)) (renderFunction (app p)) false.
Proof.
  intros Hinit Hq. rewrite (init_run p Hinit). cbv zeta. rewrite Hq. simpl.
  repeat split. eauto.
Qed.

(** X16. [init()] with its root and a render function: the application
    becomes initialized with that root, one listener is put on
    [hashchange], and the trace grows by the dispatch of the fragment
    shown (or of ["#/"] when there is none), then the line
    [App initialized], then one call of the render function: the route is
    dispatched before the first rendering.  The outcome of [init()] is the
    one of that rendering. *)
Theorem init_dispatches_then_renders (p : Page) (root : node) (f : fn) :
  isInitialized (app p) = false ->
  querySelector (rootSelector (app p)) (world p) = Return (Some root) ->
  renderFunction (app p) = Some f ->
  let hash :=
    if String.eqb (location_hash (world p)) "" then "#/"
    else location_hash (world p) in
  let routed := (executeRoute hash (world p)).1 in
  let p' := (init' p).1 in
  app p' = mkApp (Some root) (rootSelector (app p)) (Some f) true
  /\ hashchange_listeners p' = S (hashchange_listeners p)
  /\ warnings p' = warnings p
  /\ trace (world p')
     = trace routed ++ [ConsoleLog [VStr "App initialized (v1.0.0)"];
                        Invoke f []]
  /\ allRoutes (world p') = allRoutes (world p)
  /\ location_hash (world p') = location_hash routed.
Proof.
  intros Hinit Hq Hf hash routed p'. subst p'.
  rewrite (init_run p Hinit). cbv zeta. rewrite Hq, Hf. fold hash. fold routed.
  set (p1 := mkPage _ _ _ _).
  rewrite (render_run p1 f root eq_refl eq_refl). cbv zeta.
  set (w1 := set_trace _ (world p1)).
  set (v := if isArray _ then _ else _).
  destruct (updateDom_quiet root v w1) as (Ht & Hr & Hl).
  destruct (updateDom'' root v w1) as [w2 o].
  simpl in Ht, Hr, Hl |- *. rewrite Ht, Hr, Hl. subst w1. simpl.
  repeat split.
  - by rewrite <- app_assoc.
  - unfold routed. rewrite executeRoute_run. cbv zeta.
    by destruct (String.eqb (location_hash (world p)) (with_marker _)).
Qed.

(** X17. [init()] initializes once.  As soon as the root was found the
    application counts as initialized, whatever becomes of the first
    rendering: a second [init()] adds a warning and does nothing else (no
    second listener, no dispatch, no rendering).  In particular, when
    [init()] is called before a render function was set, it throws for
    want of one, and calling [setRenderFunction] and [init()] again
    afterwards renders nothing. *)
Theorem init_once (p : Page) (root : node) :
  isInitialized (app p) = false ->
  querySelector (rootSelector (app p)) (world p) = Return (Some root) ->
  let p1 := (init' p).1 in
  init' p1
  = (mkPage (app p1) (world p1) (hashchange_listeners p1)
       (warnings p1 ++ ["App already initialized"]), Return tt)
  /\ (renderFunction (app p) = None ->
      (init' p).2
      = Throw (Error "No render function set. Use setRenderFunction() first.")
      /\ forall f,
           let p2 := (setRenderFunction' (VFun f) p1).1 in
           (init' p2).2 = Return tt /\ world (init' p2).1 = world p2).
Proof.
  intros Hinit Hq p1.
  assert (isInitialized (app p1) = true) as Hdone.
  { subst p1. rewrite (init_run p Hinit). cbv zeta. rewrite Hq.
    set (p0 := mkPage _ _ _ _).
    by rewrite (proj1 (render_page p0)). }
  split.
  - unfold init. by rewrite Hdone.
  - intros Hnone. split.
    + rewrite (init_run p Hinit). cbv zeta. rewrite Hq.
      unfold render. simpl. by rewrite Hnone.
    + intros f p2. subst p2. unfold init, setRenderFunction, bindP,
        modify_app, on_world, modify. simpl. by rewrite Hdone.
Qed.

End Application.

Lemma render_before_init_witness :
  setRenderFunction 9 (VStr "renderApp")
    (mkPage (new_App "body") initial_world 0 [])
  = (mkPage (new_App "body") initial_world 0 [],
     Throw (Error "Render function must be a function")).
Proof.
  exact (proj1 (proj2 (render_before_init any_tag any_attribute
                         (fun _ _ => VUndefined) 9 "body" initial_world 0
                         (VStr "renderApp"))) ltac:(discriminate)).
Defined.

Lemma init_root_missing_witness :
  let p := mkPage (new_App "#app") initial_world 0 [] in
  world (init any_tag any_attribute (fun _ _ => Return None) (fun _ _ => VUndefined) p).1
  = initial_world.
Proof.
  intros p.
  destruct (init_root_missing any_tag any_attribute (fun _ _ => Return None)
              (fun _ _ => VUndefined) p eq_refl eq_refl) as (_ & H & _).
  exact H.
Defined.

Lemma init_dispatches_then_renders_witness :
  let a := mkApp None "body" (Some 7) false in
  let p := mkPage a (set_allRoutes {[ "/" := 5 ]} initial_world) 0 [] in
  trace (world (init any_tag any_attribute (fun _ _ => Return (Some 0))
                  (fun _ _ => VArr []) p).1)
  = [Invoke 5 []; PushState "#/";
     ConsoleLog [VStr "App initialized (v1.0.0)"]; Invoke 7 []].
Proof.
  intros a p.
  destruct (init_dispatches_then_renders any_tag any_attribute
              (fun _ _ => Return (Some 0)) (fun _ _ => VArr []) p 0 7
              eq_refl eq_refl eq_refl) as (_ & _ & _ & H & _).
  rewrite H. reflexivity.
Defined.

Lemma init_once_witness :
  let p := mkPage (new_App "body") initial_world 0 [] in
  let p1 := (init any_tag any_attribute (fun _ _ => Return (Some 0))
               (fun _ _ => VArr []) p).1 in
  (init any_tag any_attribute (fun _ _ => Return (Some 0)) (fun _ _ => VArr []) p1).2
  = Return tt
  /\ hashchange_listeners
       (init any_tag any_attribute (fun _ _ => Return (Some 0)) (fun _ _ => VArr [])
          p1).1 = 1.
Proof.
  intros p p1.
  destruct (init_once any_tag any_attribute (fun _ _ => Return (Some 0))
              (fun _ _ => VArr []) 9 p 0 eq_refl eq_refl) as [H _].
  fold p1 in H. rewrite H. split; reflexivity.
Defined.

(** X18. The render function may return one tree or an array of trees:
    [render()] treats a value that is not an array as the array of that
    one value. *)
Theorem render_single_tree (createElement_accepts : value -> bool)
    (setAttribute_accepts : string -> bool) (returned : fn -> World -> value)
    (p : Page) :
  render createElement_accepts setAttribute_accepts returned p
  = render createElement_accepts setAttribute_accepts
      (fun f w => if isArray (returned f w) then returned f w
                  else VArr [returned f w]) p.
Proof.
  unfold render. destruct (renderFunction (app p)) as [f|]; [| done].
  destruct (rootElement (app p)) as [root|]; [| done].
  unfold on_world, bind, emit, modify, read. simpl.
  destruct (isArray (returned f _)) eqn:Harray; [by rewrite Harray | done].
Qed.

(** ** The list of todos *)

Lemma App_setState_run (props : list (string * value)) (p : Page) :
  App_setState (VObj props) VUndefined p = (written props p, Return true).
Proof. reflexivity. Qed.

Lemma written_lookup (props : list (string * value)) (p : Page) (k : string) :
  App_getState (written props p) !! k
  = match own_props (VObj props) !! k with
    | Some v => Some v
    | None => App_getState p !! k
    end.
Proof. unfold written, App_getState, getState. simpl. apply spread_lookup. Qed.

Lemma written_notifications (props : list (string * value)) (p : Page) :
  notifications (written props p) = notifications p.
Proof. reflexivity. Qed.

(** Writing one key: the key holds the new value, the others are kept. *)
Lemma written_one (k : string) (v : value) (p : Page) (k' : string) :
  App_getState (written [(k, v)] p) !! k'
  = if decide (k' = k) then Some v else App_getState p !! k'.
Proof.
  rewrite written_lookup. unfold own_props. simpl.
  destruct (decide (k' = k)) as [-> | Hne].
  - by rewrite lookup_insert_eq.
  - by rewrite lookup_insert_ne, lookup_empty.
Qed.

(** Writing the value a key holds changes nothing in the state. *)
Lemma written_same (k : string) (v : value) (p : Page) :
  App_getState p !! k = Some v ->
  App_getState (written [(k, v)] p) = App_getState p.
Proof.
  intros H. apply map_eq. intros k'. rewrite written_one.
  by destruct (decide (k' = k)) as [-> | Hne].
Qed.

Lemma field_lookup (object : gmap string value) (k : string) (v : value) :
  object !! k = Some v -> field object k = v.
Proof. unfold field. by intros ->. Qed.

Lemma member_defined (v : value) (k : string) :
  defined v = true -> member v k = Return (get_prop v k).
Proof. unfold defined, member. by destruct v. Qed.

Lemma todo_value_defined (t : Todo) : defined (todo_value t) = true.
Proof. reflexivity. Qed.

Lemma strict_equal_string (v : value) (s : string) :
  strict_equal v (VStr s) = true <-> v = VStr s.
Proof.
  destruct v; simpl; try (split; [discriminate | congruence]).
  rewrite String.eqb_eq. split; congruence.
Qed.

Lemma or_else_array (xs : list value) (d : value) :
  or_else (VArr xs) d = VArr xs.
Proof. reflexivity. Qed.

(** The loops, when the callback returns on every member. *)
Lemma filter_loop_run (callback : value -> outcome value)
    (keep : value -> bool) (xs : list value) :
  Forall (fun x => exists v, callback x = Return v /\ truthy v = keep x) xs ->
  filter_loop callback xs = Return (List.filter keep xs).
Proof.
  induction 1 as [| x rest (v & Hv & Hkeep) _ IH]; simpl; [done |].
  rewrite Hv. simpl. rewrite IH. simpl. by rewrite Hkeep.
Qed.

Lemma map_loop_run (callback : value -> outcome value)
    (change : value -> value) (xs : list value) :
  Forall (fun x => callback x = Return (change x)) xs ->
  map_loop callback xs = Return (change <$> xs).
Proof.
  induction 1 as [| x rest Hx _ IH]; simpl; [done |].
  rewrite Hx. simpl. by rewrite IH.
Qed.

Lemma every_loop_run (callback : value -> outcome value)
    (test : value -> bool) (xs : list value) :
  Forall (fun x => exists v, callback x = Return v /\ truthy v = test x) xs ->
  every_loop callback xs = Return (forallb test xs).
Proof.
  induction 1 as [| x rest (v & Hv & Htest) _ IH]; simpl; [done |].
  rewrite Hv. simpl. rewrite Htest. by destruct (test x).
Qed.

Lemma filter_filter {A} (keep : A -> bool) (xs : list A) :
  List.filter keep (List.filter keep xs) = List.filter keep xs.
Proof.
  induction xs as [| x rest IH]; simpl; [done |].
  destruct (keep x) eqn:Hx; simpl; [by rewrite Hx, IH | done].
Qed.

Lemma filter_complement {A} (keep : A -> bool) (xs : list A) :
  List.filter (fun x => negb (keep x)) (List.filter keep xs) = [].
Proof.
  induction xs as [| x rest IH]; simpl; [done |].
  destruct (keep x) eqn:Hx; simpl; [by rewrite Hx | done].
Qed.

Lemma filter_partition {A} (keep : A -> bool) (xs : list A) :
  List.filter (fun x => negb (keep x)) xs ++ List.filter keep xs ≡ₚ xs.
Proof.
  induction xs as [| x rest IH]; simpl; [done |].
  destruct (keep x); simpl.
  - rewrite <- Permutation_middle. by constructor.
  - by constructor.
Qed.

Lemma Forall_filter_keeps {A} (P : A -> Prop) (keep : A -> bool) (xs : list A) :
  Forall P xs -> Forall P (List.filter keep xs).
Proof.
  induction 1 as [| x rest Hx _ IH]; simpl; [done |].
  destruct (keep x); [by constructor | done].
Qed.

(** The callbacks of the two views and of [clearCompleted]. *)
Lemma active_callback (xs : list value) :
  Forall (fun x => defined x = true) xs ->
  Forall (fun x => exists v,
            (let! completed := member x "completed" in
             Return (VBool (negb (truthy completed)))) = Return v
            /\ truthy v = negb (is_completed x)) xs.
Proof.
  intros H. eapply Forall_impl; [exact H |].
  intros x Hx. rewrite (member_defined _ _ Hx). simpl. eauto.
Qed.

Lemma completed_callback (xs : list value) :
  Forall (fun x => defined x = true) xs ->
  Forall (fun x => exists v,
            member x "completed" = Return v /\ truthy v = is_completed x) xs.
Proof.
  intros H. eapply Forall_impl; [exact H |].
  intros x Hx. rewrite (member_defined _ _ Hx). eauto.
Qed.

Lemma getFilteredTodos_run (xs : list value) :
  Forall (fun x => defined x = true) xs ->
  getFilteredTodos (VArr xs) (VStr "active")
  = Return (VArr (List.filter (fun x => negb (is_completed x)) xs))
  /\ getFilteredTodos (VArr xs) (VStr "completed")
     = Return (VArr (List.filter is_completed xs)).
Proof.
  intros Hxs. unfold getFilteredTodos. simpl.
  rewrite (filter_loop_run _ _ _ (active_callback xs Hxs)).
  by rewrite (filter_loop_run _ _ _ (completed_callback xs Hxs)).
Qed.

(** X19. The views of the list.  On an array whose members are neither
    [null] nor [undefined], the view ["active"] keeps the members whose
    [completed] is falsy and the view ["completed"] those whose
    [completed] is truthy, each in the order of the list: every member is
    in exactly one of the two.  A list that is falsy is shown as the empty
    array by these two views, while every other filter returns what it was
    given, array or not. *)
Theorem getFilteredTodos_views (todos : value) (xs : list value) :
  (Forall (fun x => defined x = true) xs ->
   let active := List.filter (fun x => negb (is_completed x)) xs in
   let completed := List.filter is_completed xs in
   getFilteredTodos (VArr xs) (VStr "active") = Return (VArr active)
   /\ getFilteredTodos (VArr xs) (VStr "completed") = Return (VArr completed)
   /\ active ++ completed ≡ₚ xs)
  /\ (truthy todos = false ->
      getFilteredTodos todos (VStr "active") = Return (VArr [])
      /\ getFilteredTodos todos (VStr "completed") = Return (VArr []))
  /\ (forall filter : value,
        filter <> VStr "active" -> filter <> VStr "completed" ->
        getFilteredTodos todos filter = Return todos).
Proof.
  split; [| split].
  - intros Hxs active completed.
    destruct (getFilteredTodos_run xs Hxs) as [Hactive Hcompleted].
    split; [done |]. split; [done |]. apply filter_partition.
  - intros Hfalsy. unfold getFilteredTodos, or_else. simpl.
    by rewrite Hfalsy.
  - intros filter Hactive Hcompleted. unfold getFilteredTodos.
    destruct (strict_equal filter (VStr "active")) eqn:E1.
    { by apply strict_equal_string in E1. }
    destruct (strict_equal filter (VStr "completed")) eqn:E2.
    { by apply strict_equal_string in E2. }
    done.
Qed.

(** An operation that computes a value and writes it to the store. *)
Lemma computed_then_written (o : outcome value)
    (props : value -> list (string * value)) (p : Page) :
  (let+ v := eval o in
   App_setState (VObj (props v)) VUndefined >>+ retP tt) p
  = match o with
    | Return v => (written (props v) p, Return tt)
    | Throw e => (p, Throw e)
    | NoFuel => (p, NoFuel)
    end.
Proof. by destruct o. Qed.

Lemma written_twice (k : string) (v1 v2 : value) (p : Page) :
  App_getState (written [(k, v2)] (written [(k, v1)] p))
  = App_getState (written [(k, v2)] p).
Proof.
  apply map_eq. intros k'. rewrite !written_one.
  by destruct (decide (k' = k)).
Qed.

Lemma clearCompleted_run (p : Page) (xs : list value) :
  App_getState p !! "todos" = Some (VArr xs) ->
  Forall (fun x => defined x = true) xs ->
  clearCompleted p
  = (written
       [("todos", VArr (List.filter (fun x => negb (is_completed x)) xs))] p,
     Return tt).
Proof.
  intros Htodos Hxs. unfold clearCompleted. cbv zeta.
  rewrite (field_lookup _ _ _ Htodos), or_else_array.
  rewrite (computed_then_written _ (fun v => [("todos", v)])).
  unfold Array_filter.
  by rewrite (filter_loop_run _ _ _ (active_callback xs Hxs)).
Qed.

(** X20. [clearCompleted()] on a list whose members are neither [null]
    nor [undefined]: the store is given the list of the members whose
    [completed] is falsy, which is the view ["active"] of the list before.
    Afterwards the view ["completed"] is empty, the view ["active"] is the
    whole list, and clearing again leaves the state as it is. *)
Theorem clearCompleted_spec (p : Page) (xs : list value) :
  App_getState p !! "todos" = Some (VArr xs) ->
  Forall (fun x => defined x = true) xs ->
  let active := List.filter (fun x => negb (is_completed x)) xs in
  let p1 := (clearCompleted p).1 in
  clearCompleted p = (written [("todos", VArr active)] p, Return tt)
  /\ getFilteredTodos (VArr xs) (VStr "active") = Return (VArr active)
  /\ field (App_getState p1) "todos" = VArr active
  /\ getFilteredTodos (VArr active) (VStr "completed") = Return (VArr [])
  /\ getFilteredTodos (VArr active) (VStr "active") = Return (VArr active)
  /\ App_getState (clearCompleted p1).1 = App_getState p1.
Proof.
  intros Htodos Hxs active p1. subst p1.
  pose proof (Forall_filter_keeps _ (fun x => negb (is_completed x)) xs Hxs)
    as Hactive. fold active in Hactive.
  destruct (getFilteredTodos_run xs Hxs) as (Hview & _).
  destruct (getFilteredTodos_run active Hactive) as (Hview1 & Hview2).
  rewrite (clearCompleted_run p xs Htodos Hxs). fold active. simpl fst.
  assert (App_getState (written [("todos", VArr active)] p) !! "todos"
          = Some (VArr active)) as Htodos1 by (by rewrite written_one).
  split; [done |]. split; [exact Hview |].
  split; [by apply field_lookup |].
  split; [| split].
  - rewrite Hview2. do 2 f_equal. unfold active.
    etransitivity;
      [| apply (filter_complement (fun x => negb (is_completed x)) xs)].
    apply List.filter_ext. intros x. by rewrite negb_involutive.
  - rewrite Hview1. unfold active. by rewrite filter_filter.
  - rewrite (clearCompleted_run _ active Htodos1 Hactive). simpl fst.
    unfold active at 1. rewrite filter_filter. fold active.
    by apply written_same.
Qed.

Lemma delete_callback (id : Z) (xs : list value) :
  Forall (fun x => defined x = true) xs ->
  Forall (fun x => exists v,
            (let! its_id := member x "id" in
             Return (VBool (negb (strict_equal its_id (VNum id))))) = Return v
            /\ truthy v = negb (has_id id x)) xs.
Proof.
  intros H. eapply Forall_impl; [exact H |].
  intros x Hx. rewrite (member_defined _ _ Hx). simpl. eauto.
Qed.

Lemma deleteTodo_run (id : Z) (p : Page) (xs : list value) :
  App_getState p !! "todos" = Some (VArr xs) ->
  Forall (fun x => defined x = true) xs ->
  deleteTodo id p
  = (written [("todos", VArr (List.filter (fun x => negb (has_id id x)) xs))] p,
     Return tt).
Proof.
  intros Htodos Hxs. unfold deleteTodo. cbv zeta.
  rewrite (field_lookup _ _ _ Htodos), or_else_array.
  rewrite (computed_then_written _ (fun v => [("todos", v)])).
  unfold Array_filter.
  by rewrite (filter_loop_run _ _ _ (delete_callback id xs Hxs)).
Qed.

Lemma filter_all {A} (keep : A -> bool) (xs : list A) :
  Forall (fun x => keep x = true) xs -> List.filter keep xs = xs.
Proof.
  induction 1 as [| x rest Hx _ IH]; simpl; [done |]. by rewrite Hx, IH.
Qed.

(** X21. [deleteTodo(id)] on a list whose members are neither [null] nor
    [undefined]: the store is given the members whose [id] is not [id],
    in their order, so that none with that id is left.  Deleting an id no
    member has, and deleting the same id again, leave the state as it
    is. *)
Theorem deleteTodo_removes (id : Z) (p : Page) (xs : list value) :
  App_getState p !! "todos" = Some (VArr xs) ->
  Forall (fun x => defined x = true) xs ->
  let kept := List.filter (fun x => negb (has_id id x)) xs in
  let p1 := (deleteTodo id p).1 in
  deleteTodo id p = (written [("todos", VArr kept)] p, Return tt)
  /\ Forall (fun x => has_id id x = false) kept
  /\ (Forall (fun x => has_id id x = false) xs ->
      App_getState p1 = App_getState p)
  /\ App_getState (deleteTodo id p1).1 = App_getState p1.
Proof.
  intros Htodos Hxs kept p1. subst p1.
  rewrite (deleteTodo_run id p xs Htodos Hxs). fold kept. simpl fst.
  assert (Forall (fun x => has_id id x = false) kept) as Hkept.
  { unfold kept. clear. induction xs as [| x rest IH]; simpl; [done |].
    destruct (has_id id x) eqn:Hx; simpl; [done | by constructor]. }
  split; [done |]. split; [done |]. split.
  - intros Habsent. apply written_same. rewrite Htodos. do 2 f_equal.
    symmetry. apply filter_all. eapply Forall_impl; [exact Habsent |].
    by intros x ->.
  - assert (App_getState (written [("todos", VArr kept)] p) !! "todos"
            = Some (VArr kept)) as Htodos1 by (by rewrite written_one).
    rewrite (deleteTodo_run id _ kept Htodos1
               (Forall_filter_keeps _ _ xs Hxs)).
    simpl fst. unfold kept at 1. rewrite filter_filter. fold kept.
    by apply written_same.
Qed.

(** *** Lists of todos as the application documents them *)

Lemma todos_defined (ts : list Todo) :
  Forall (fun x => defined x = true) (todo_value <$> ts).
Proof. apply Forall_fmap. by apply Forall_true. Qed.

Lemma has_id_todo (id : Z) (t : Todo) :
  has_id id (todo_value t) = (todo_id t =? id)%Z.
Proof. reflexivity. Qed.

Lemma is_completed_todo (t : Todo) :
  is_completed (todo_value t) = todo_completed t.
Proof. reflexivity. Qed.

Lemma map_loop_todos (callback : value -> outcome value)
    (change : Todo -> Todo) (ts : list Todo) :
  (forall t, callback (todo_value t) = Return (todo_value (change t))) ->
  map_loop callback (todo_value <$> ts)
  = Return (todo_value <$> (change <$> ts)).
Proof.
  intros H. induction ts as [| t rest IH]; [done |].
  rewrite !fmap_cons. cbn [map_loop]. rewrite H. cbn [bindE].
  by rewrite IH.
Qed.

Lemma filter_todos (keep : value -> bool) (ts : list Todo) :
  List.filter keep (todo_value <$> ts)
  = todo_value <$> List.filter (fun t => keep (todo_value t)) ts.
Proof.
  induction ts as [| t rest IH]; [done |].
  rewrite fmap_cons. cbn [List.filter].
  destruct (keep (todo_value t)); [rewrite fmap_cons |]; by rewrite IH.
Qed.

Lemma toggle_callback (id : Z) (t : Todo) :
  (let! its_id := member (todo_value t) "id" in
   if strict_equal its_id (VNum id) then
     let! completed := member (todo_value t) "completed" in
     Return (spread_with (todo_value t) "completed"
               (VBool (negb (truthy completed))))
   else Return (todo_value t))
  = Return (todo_value (toggled id t)).
Proof.
  unfold toggled.
  change (member (todo_value t) "id")
    with (Return (A:=value) (VNum (todo_id t))).
  cbn [bindE strict_equal same_key].
  destruct (todo_id t =? id)%Z; reflexivity.
Qed.

Lemma toggled_twice (id : Z) (t : Todo) : toggled id (toggled id t) = t.
Proof.
  unfold toggled. destruct (todo_id t =? id)%Z eqn:E; simpl; rewrite E.
  - destruct t as [i title c]. simpl. by rewrite negb_involutive.
  - done.
Qed.

Lemma toggleTodo_run (id : Z) (p : Page) (ts : list Todo) :
  App_getState p !! "todos" = Some (todos_value ts) ->
  toggleTodo id p
  = (written [("todos", todos_value (toggled id <$> ts))] p, Return tt).
Proof.
  intros Htodos. unfold toggleTodo. cbv zeta.
  rewrite (field_lookup _ _ _ Htodos). unfold todos_value at 1.
  rewrite or_else_array.
  rewrite (computed_then_written _ (fun v => [("todos", v)])).
  unfold Array_map.
  by rewrite (map_loop_todos _ (toggled id) ts (toggle_callback id)).
Qed.

(** X22. [toggleTodo(id)] on a list of todos: the todos with that id have
    their flag [completed] negated, the others and the order are kept.
    Toggling the same id twice gives back the state there was. *)
Theorem toggleTodo_twice (id : Z) (p : Page) (ts : list Todo) :
  App_getState p !! "todos" = Some (todos_value ts) ->
  let p1 := (toggleTodo id p).1 in
  toggleTodo id p
  = (written [("todos", todos_value (toggled id <$> ts))] p, Return tt)
  /\ (toggleTodo id p1).2 = Return tt
  /\ App_getState (toggleTodo id p1).1 = App_getState p.
Proof.
  intros Htodos p1. subst p1. rewrite (toggleTodo_run id p ts Htodos).
  simpl fst. split; [done |].
  assert (App_getState
            (written [("todos", todos_value (toggled id <$> ts))] p) !! "todos"
          = Some (todos_value (toggled id <$> ts))) as Htodos1
    by (by rewrite written_one).
  rewrite (toggleTodo_run id _ _ Htodos1). simpl. split; [done |].
  rewrite written_twice. apply written_same. rewrite Htodos.
  assert (toggled id <$> (toggled id <$> ts) = ts) as Hback.
  { clear. induction ts as [| t rest IH]; [done |].
    rewrite !fmap_cons, toggled_twice. by rewrite IH. }
  by rewrite Hback.
Qed.

Lemma every_completed (ts : list Todo) :
  every_loop (fun todo => member todo "completed") (todo_value <$> ts)
  = Return (forallb todo_completed ts).
Proof.
  induction ts as [| t rest IH]; [done |].
  rewrite fmap_cons. cbn [every_loop forallb].
  change (member (todo_value t) "completed")
    with (Return (A:=value) (VBool (todo_completed t))).
  cbn [bindE truthy]. by destruct (todo_completed t).
Qed.

Lemma toggleAll_run (p : Page) (ts : list Todo) :
  App_getState p !! "todos" = Some (todos_value ts) ->
  let allCompleted := Nat.ltb 0 (length ts) && forallb todo_completed ts in
  toggleAll p
  = (written [("todos", todos_value (marked (negb allCompleted) <$> ts))] p,
     Return tt).
Proof.
  intros Htodos allCompleted. unfold toggleAll. cbv zeta.
  rewrite (field_lookup _ _ _ Htodos). unfold todos_value at 1 2 3.
  rewrite or_else_array. unfold length_positive, Array_every.
  rewrite length_fmap, every_completed.
  unfold bindP at 1. unfold eval at 1.
  assert ((if Nat.ltb 0 (length ts)
           then Return (forallb todo_completed ts) else Return false)
          = Return allCompleted) as ->.
  { unfold allCompleted. by destruct (Nat.ltb 0 (length ts)). }
  rewrite (computed_then_written _ (fun v => [("todos", v)])).
  unfold Array_map.
  by rewrite (map_loop_todos _ (marked (negb allCompleted)) ts).
Qed.

Lemma marked_all (completed : bool) (ts : list Todo) :
  forallb todo_completed (marked completed <$> ts)
  = completed || Nat.eqb (length ts) 0.
Proof.
  induction ts as [| t rest IH]; [by destruct completed |].
  rewrite fmap_cons. cbn [forallb marked todo_completed length Nat.eqb].
  rewrite IH. by destruct completed.
Qed.

Lemma marked_marked (c1 c2 : bool) (ts : list Todo) :
  marked c2 <$> (marked c1 <$> ts) = marked c2 <$> ts.
Proof.
  induction ts as [| t rest IH]; [done |].
  rewrite !fmap_cons. by rewrite IH.
Qed.

(** X23. [toggleAll()] on a list of todos: every todo is marked completed,
    unless there is at least one todo and all of them were completed, in
    which case every todo is marked active.  Ids, titles and order are
    kept.  A second [toggleAll()] does not give the list back: it leaves
    every todo completed if all were at the start, and every todo active
    otherwise. *)
Theorem toggleAll_spec (p : Page) (ts : list Todo) :
  App_getState p !! "todos" = Some (todos_value ts) ->
  let allCompleted := Nat.ltb 0 (length ts) && forallb todo_completed ts in
  let p1 := (toggleAll p).1 in
  toggleAll p
  = (written [("todos", todos_value (marked (negb allCompleted) <$> ts))] p,
     Return tt)
  /\ (toggleAll p1).2 = Return tt
  /\ field (App_getState (toggleAll p1).1) "todos"
     = todos_value (marked allCompleted <$> ts).
Proof.
  intros Htodos allCompleted p1. subst p1.
  rewrite (toggleAll_run p ts Htodos). fold allCompleted. simpl fst.
  split; [done |].
  assert (App_getState
            (written
               [("todos", todos_value (marked (negb allCompleted) <$> ts))] p)
          !! "todos"
          = Some (todos_value (marked (negb allCompleted) <$> ts))) as Htodos1
    by (by rewrite written_one).
  rewrite (toggleAll_run _ _ Htodos1). simpl. split; [done |].
  apply field_lookup. rewrite written_one. simpl. do 2 f_equal.
  rewrite marked_marked, marked_all, length_fmap.
  unfold allCompleted. destruct ts as [| t rest]; [done |]. simpl.
  by destruct (todo_completed t && forallb todo_completed rest).
Qed.

Lemma toggleAll_spec_witness :
  let p := written [("todos", todos_value [mkTodo 1 "milk" true;
                                           mkTodo 2 "eggs" false])]
             (mkPage (new_App "body") initial_world 0 []) in
  field (App_getState (toggleAll p).1) "todos"
  = todos_value [mkTodo 1 "milk" true; mkTodo 2 "eggs" true]
  /\ field (App_getState (toggleAll (toggleAll p).1).1) "todos"
     = todos_value [mkTodo 1 "milk" false; mkTodo 2 "eggs" false].
Proof.
  intros p.
  destruct (toggleAll_spec p [mkTodo 1 "milk" true; mkTodo 2 "eggs" false]
              eq_refl) as (H1 & _ & H2).
  split; [by rewrite H1 | exact H2].
Defined.

Lemma logged_state (line : string) (p : Page) :
  App_getState (logged line p) = App_getState p.
Proof. reflexivity. Qed.

Section TodoOperations.

Variable add : value -> value -> value.
Variable trim : string -> string.

Local Abbreviation addTodo' := (addTodo add).
Local Abbreviation editTodo' := (editTodo trim).
Local Abbreviation perform' := (perform add trim).
Local Abbreviation perform_all' := (perform_all add trim).

Lemma addTodo_short (title : string) (p : Page) :
  String.length title < 2 ->
  addTodo' title p = (logged "addTodo function" p, Return false).
Proof.
  intros Hshort. unfold addTodo, bindP, on_world, emit, modify. simpl.
  apply Nat.ltb_lt in Hshort. by rewrite Hshort.
Qed.

Lemma addTodo_run (title : string) (p : Page) (ts : list Todo) (n : Z) :
  2 <= String.length title ->
  counts_exactly add ->
  App_getState p !! "todos" = Some (todos_value ts) ->
  App_getState p !! "nextId" = Some (VNum n) ->
  (Z.abs n < 2 ^ 53)%Z ->
  addTodo' title p
  = (written
       [("todos", todos_value (ts ++ [mkTodo n title false]));
        ("nextId", VNum (n + 1))]
       (logged "addTodo function" p),
     Return true).
Proof.
  intros Hlong Hadd Htodos Hnext Hn.
  unfold addTodo, bindP at 1, on_world, emit, modify. simpl.
  apply Nat.ltb_ge in Hlong. rewrite Hlong.
  fold (logged "addTodo function" p). rewrite logged_state.
  rewrite (field_lookup _ _ _ Htodos), (field_lookup _ _ _ Hnext).
  rewrite (Hadd n Hn). unfold todos_value, iterate, bindP at 1, eval.
  rewrite fmap_app. reflexivity.
Qed.


Lemma retitle_callback (id : Z) (title : string) (t : Todo) :
  (let! its_id := member (todo_value t) "id" in
   if strict_equal its_id (VNum id) then
     Return (spread_with (todo_value t) "title" (VStr title))
   else Return (todo_value t))
  = Return (todo_value (retitled id title t)).
Proof.
  unfold retitled.
  change (member (todo_value t) "id")
    with (Return (A:=value) (VNum (todo_id t))).
  cbn [bindE strict_equal same_key].
  destruct (todo_id t =? id)%Z; reflexivity.
Qed.

Lemma editTodo_short (id : Z) (newTitle : string) (p : Page) :
  String.length (trim newTitle) < 2 ->
  editTodo' id newTitle p = (logged "editTodo function" p, Return tt).
Proof.
  intros Hshort. unfold editTodo, bindP, on_world, emit, modify. simpl.
  apply Nat.ltb_lt in Hshort. by rewrite Hshort.
Qed.

Lemma editTodo_run (id : Z) (newTitle : string) (p : Page) (ts : list Todo) :
  2 <= String.length (trim newTitle) ->
  App_getState p !! "todos" = Some (todos_value ts) ->
  editTodo' id newTitle p
  = (written
       [("todos", todos_value (retitled id (trim newTitle) <$> ts));
        ("editingId", VNull); ("focusEditTodo", VNull)]
       (logged "editTodo function" p),
     Return tt).
Proof.
  intros Hlong Htodos.
  unfold editTodo, bindP at 1, on_world, emit, modify. simpl.
  assert (String.eqb (trim newTitle) "" = false) as ->.
  { apply String.eqb_neq. intros E. rewrite E in Hlong. simpl in Hlong.
    lia. }
  apply Nat.ltb_ge in Hlong. rewrite Hlong.
  fold (logged "editTodo function" p). rewrite logged_state.
  rewrite (field_lookup _ _ _ Htodos). unfold todos_value at 1.
  rewrite or_else_array.
  rewrite (computed_then_written _
             (fun v => [("todos", v); ("editingId", VNull);
                        ("focusEditTodo", VNull)])).
  unfold Array_map.
  by rewrite (map_loop_todos _ (retitled id (trim newTitle)) ts
                (retitle_callback id (trim newTitle))).
Qed.


Lemma setFilter_run (filter : string) (p : Page) :
  setFilter filter p = (written [("filter", VStr filter)] p, Return tt).
Proof. reflexivity. Qed.

Lemma ids_kept (change : Todo -> Todo) (ts : list Todo) :
  (forall t, todo_id (change t) = todo_id t) ->
  todo_id <$> (change <$> ts) = todo_id <$> ts.
Proof.
  intros H. induction ts as [| t rest IH]; [done |].
  rewrite !fmap_cons, H. by rewrite IH.
Qed.

Lemma ids_below_kept (change : Todo -> Todo) (n : Z) (ts : list Todo) :
  (forall t, todo_id (change t) = todo_id t) ->
  Forall (fun t => (todo_id t < n)%Z) ts ->
  Forall (fun t => (todo_id t < n)%Z) (change <$> ts).
Proof.
  intros H Hts. apply Forall_fmap. eapply Forall_impl; [exact Hts |].
  intros t Ht. simpl. by rewrite H.
Qed.

Lemma ids_filter_NoDup (keep : Todo -> bool) (ts : list Todo) :
  NoDup (todo_id <$> ts) -> NoDup (todo_id <$> List.filter keep ts).
Proof.
  induction ts as [| t rest IH]; [done |].
  rewrite fmap_cons. intros Hdup. apply NoDup_cons in Hdup as [Hnew Hdup].
  cbn [List.filter]. destruct (keep t); [| by apply IH].
  rewrite fmap_cons. apply NoDup_cons. split; [| by apply IH].
  intros Hin. apply Hnew. apply list_elem_of_fmap in Hin as (t' & -> & Hin).
  apply list_elem_of_fmap. exists t'. split; [done |].
  apply list_elem_of_In. apply list_elem_of_In in Hin.
  apply List.filter_In in Hin. tauto.
Qed.

Lemma toggled_id (id : Z) (t : Todo) : todo_id (toggled id t) = todo_id t.
Proof. unfold toggled. by destruct (todo_id t =? id)%Z. Qed.

Lemma retitled_id (id : Z) (title : string) (t : Todo) :
  todo_id (retitled id title t) = todo_id t.
Proof. unfold retitled. by destruct (todo_id t =? id)%Z. Qed.

Lemma own_props_head (k : string) (v : value)
    (others : list (string * value)) :
  own_props (VObj ((k, v) :: others)) !! k = Some v.
Proof. unfold own_props. simpl. by rewrite lookup_insert_eq. Qed.

(** A list in order that replaces the one of the page. *)
Lemma consistent_written (limit n : Z) (p : Page) (ts : list Todo)
    (others : list (string * value)) :
  own_props (VObj (("todos", todos_value ts) :: others)) !! "nextId" = None ->
  App_getState p !! "nextId" = Some (VNum n) ->
  (0 < n <= limit)%Z ->
  Forall (fun t => (todo_id t < n)%Z) ts ->
  NoDup (todo_id <$> ts) ->
  consistent limit (written (("todos", todos_value ts) :: others) p).
Proof.
  intros Hothers Hnext Hn Hbelow Hdup. exists ts, n.
  rewrite !written_lookup, Hothers, own_props_head.
  repeat split; try done; lia.
Qed.

Lemma consistent_weaken (limit limit' : Z) (p p' : Page) :
  (limit <= limit')%Z ->
  App_getState p' = App_getState p ->
  consistent limit p -> consistent limit' p'.
Proof.
  intros Hle Hsame (ts & n & Htodos & Hnext & Hn & Hbelow & Hdup).
  exists ts, n. rewrite Hsame. repeat split; try done; lia.
Qed.

(** Every operation keeps the list in order, and returns. *)
Lemma perform_consistent (op : operation) (limit : Z) (p : Page) :
  counts_exactly add ->
  (limit < 2 ^ 53)%Z ->
  consistent limit p ->
  (perform' op p).2 = Return tt /\ consistent (limit + 1) (perform' op p).1.
Proof.
  intros Hadd Hlimit Hp.
  pose proof Hp as (ts & n & Htodos & Hnext & Hn & Hbelow & Hdup).
  destruct op as [title | id | id newTitle | id | | | filter]; simpl perform.
  - unfold bindP.
    destruct (Nat.lt_ge_cases (String.length title) 2) as [Hlen | Hlen].
    + rewrite (addTodo_short title p Hlen). split; [done |].
      apply (consistent_weaken limit _ p); [lia | done | done].
    + rewrite (addTodo_run title p ts n Hlen Hadd Htodos Hnext ltac:(lia)).
      split; [done |]. simpl fst.
      exists (ts ++ [mkTodo n title false]), (n + 1)%Z.
      rewrite !written_lookup. repeat split; try done; try lia.
      * apply Forall_app. split.
        -- eapply Forall_impl; [exact Hbelow |]. intros t Ht. simpl in *. lia.
        -- repeat constructor. simpl. lia.
      * rewrite fmap_app. apply NoDup_app. repeat split; [done | |].
        -- intros i Hi Hin. apply list_elem_of_fmap in Hi as (t & -> & Ht).
           rewrite Forall_forall in Hbelow. specialize (Hbelow t Ht).
           simpl in Hin. apply list_elem_of_singleton in Hin. simpl in *. lia.
        -- simpl. apply NoDup_singleton.
  - rewrite (toggleTodo_run id p ts Htodos). split; [done |]. simpl fst.
    apply (consistent_written _ n); try done; try lia.
    + apply ids_below_kept; [apply toggled_id | done].
    + rewrite ids_kept; [done | apply toggled_id].
  - destruct (Nat.lt_ge_cases (String.length (trim newTitle)) 2)
      as [Hlen | Hlen].
    + rewrite (editTodo_short id newTitle p Hlen). split; [done |].
      apply (consistent_weaken limit _ p); [lia | done | done].
    + rewrite (editTodo_run id newTitle p ts Hlen Htodos).
      split; [done |]. simpl fst.
      apply (consistent_written _ n); try done; try lia.
      * apply ids_below_kept; [apply retitled_id | done].
      * rewrite ids_kept; [done | apply retitled_id].
  - rewrite (deleteTodo_run id p _ Htodos (todos_defined ts)).
    split; [done |]. simpl fst. rewrite filter_todos.
    apply (consistent_written _ n); try done; try lia.
    + by apply Forall_filter_keeps.
    + by apply ids_filter_NoDup.
  - rewrite (toggleAll_run p ts Htodos). split; [done |]. simpl fst.
    apply (consistent_written _ n); try done; try lia.
    + by apply ids_below_kept.
    + by rewrite ids_kept.
  - rewrite (clearCompleted_run p _ Htodos (todos_defined ts)).
    split; [done |]. simpl fst. rewrite filter_todos.
    apply (consistent_written _ n); try done; try lia.
    + by apply Forall_filter_keeps.
    + by apply ids_filter_NoDup.
  - rewrite setFilter_run. split; [done |]. simpl fst.
    exists ts, n. rewrite !written_one. simpl.
    repeat split; try done; lia.
Qed.

Lemma perform_all_consistent (ops : list operation) (limit : Z) (p : Page) :
  counts_exactly add ->
  (limit + Z.of_nat (length ops) <= 2 ^ 53)%Z ->
  consistent limit p ->
  (perform_all' ops p).2 = Return tt
  /\ consistent (limit + Z.of_nat (length ops)) (perform_all' ops p).1.
Proof.
  intros Hadd. revert limit p.
  induction ops as [| op rest IH]; intros limit p Hlimit Hp.
  - split; [done |]. apply (consistent_weaken limit _ p); [simpl; lia | done..].
  - cbn [perform_all length] in *. unfold bindP.
    destruct (perform_consistent op limit p Hadd ltac:(lia) Hp) as [Hret Hp1].
    destruct (perform' op p) as [p1 o]. simpl in Hret, Hp1. subst o.
    destruct (IH (limit + 1)%Z p1 ltac:(lia) Hp1) as [Hret' Hp'].
    split; [done |].
    by replace (limit + Z.of_nat (S (length rest)))%Z
      with (limit + 1 + Z.of_nat (length rest))%Z by lia.
Qed.

(** X26. The list of the application stays in order.  From the state the
    module installs when it is loaded, whatever operations the user asks
    for ([addTodo], [toggleTodo], [editTodo], [deleteTodo], [toggleAll],
    [clearCompleted], [setFilter], in any order and with any arguments,
    fewer than 2^53 of them), none throws, and afterwards the store still
    holds a list of todos whose ids are distinct and below the next id,
    which is at most one more than the number of operations. *)
Theorem todos_stay_consistent (ops : list operation) (p0 : Page) :
  counts_exactly add ->
  (Z.of_nat (length ops) < 2 ^ 53)%Z ->
  let loaded := (App_setState TodoMVC_state VUndefined p0).1 in
  (perform_all' ops loaded).2 = Return tt
  /\ consistent (1 + Z.of_nat (length ops)) (perform_all' ops loaded).1.
Proof.
  intros Hadd Hlen loaded.
  apply perform_all_consistent; [done | lia |].
  exists [], 1%Z. subst loaded. unfold TodoMVC_state.
  rewrite App_setState_run. simpl fst. rewrite !written_lookup.
  repeat split; try done; try lia. constructor.
Qed.

End TodoOperations.

Lemma getFilteredTodos_views_witness :
  getFilteredTodos
    (VArr [todo_value (mkTodo 1 "milk" true); VObj [("id", VNum 2)];
           VStr "note"])
    (VStr "active")
  = Return (VArr [VObj [("id", VNum 2)]; VStr "note"]).
Proof.
  destruct (getFilteredTodos_views VUndefined
              [todo_value (mkTodo 1 "milk" true); VObj [("id", VNum 2)];
               VStr "note"]) as (H & _).
  destruct (H ltac:(repeat constructor)) as (Hactive & _).
  exact Hactive.
Defined.

Lemma clearCompleted_spec_witness :
  let p := written [("todos", todos_value [mkTodo 1 "milk" true;
                                           mkTodo 2 "eggs" false])]
             (mkPage (new_App "body") initial_world 0 []) in
  field (App_getState (clearCompleted p).1) "todos"
  = todos_value [mkTodo 2 "eggs" false].
Proof.
  intros p.
  destruct (clearCompleted_spec p
              (todo_value <$> [mkTodo 1 "milk" true; mkTodo 2 "eggs" false])
              eq_refl ltac:(repeat constructor)) as (_ & _ & H & _).
  exact H.
Defined.

Lemma deleteTodo_removes_witness :
  let p := written [("todos", todos_value [mkTodo 1 "milk" true;
                                           mkTodo 2 "eggs" false])]
             (mkPage (new_App "body") initial_world 0 []) in
  deleteTodo 1 p
  = (written [("todos", todos_value [mkTodo 2 "eggs" false])] p, Return tt).
Proof.
  intros p.
  destruct (deleteTodo_removes 1 p
              (todo_value <$> [mkTodo 1 "milk" true; mkTodo 2 "eggs" false])
              eq_refl ltac:(repeat constructor)) as (H & _).
  exact H.
Defined.

Lemma toggleTodo_twice_witness :
  let p := written [("todos", todos_value [mkTodo 1 "milk" true;
                                           mkTodo 2 "eggs" false])]
             (mkPage (new_App "body") initial_world 0 []) in
  field (App_getState (toggleTodo 2 p).1) "todos"
  = todos_value [mkTodo 1 "milk" true; mkTodo 2 "eggs" true]
  /\ App_getState (toggleTodo 2 (toggleTodo 2 p).1).1 = App_getState p.
Proof.
  intros p.
  destruct (toggleTodo_twice 2 p
              [mkTodo 1 "milk" true; mkTodo 2 "eggs" false] eq_refl)
    as (H1 & _ & H2).
  split; [by rewrite H1 | exact H2].
Defined.

Lemma counts_exactly_integer_add : counts_exactly integer_add.
Proof. intros n _. reflexivity. Qed.



Lemma todos_stay_consistent_witness :
  let loaded :=
    (App_setState TodoMVC_state VUndefined
       (mkPage (new_App "body") initial_world 0 [])).1 in
  let ops := [AddTodo "milk"; AddTodo "eggs"; ToggleTodo 1; ClearCompleted;
              EditTodo 2 " "; AddTodo "tea"] in
  (perform_all integer_add blank_trim ops loaded).2 = Return tt
  /\ consistent 7 (perform_all integer_add blank_trim ops loaded).1.
Proof.
  intros loaded ops.
  exact (todos_stay_consistent integer_add blank_trim ops
           (mkPage (new_App "body") initial_world 0 [])
           counts_exactly_integer_add ltac:(simpl; lia)).
Defined.
